(** * The chat message pipeline of Shinmen-Agent

    A shallow embedding of
    - [src/models/Conversation.js] (the Conversation model over the
      [conversations] table of [src/config/database.js]),
    - [src/middleware/validation.js] (the validator chains of the chat routes),
    - [src/routes/chat.js] (the POST [/conversations/:id/messages] and
      PUT [/conversations/:id] handlers),
    - [src/utils/aiService.js] ([generateAIResponse]),
    - [src/context/ChatContext.tsx] ([chatReducer] and the two client
      operations that dispatch into it),
    followed by the properties of the pipeline.

    Conventions.  A JavaScript string is a [string]; a timestamp (the ISO
    string of [new Date()], a [TIMESTAMP] column) is the [Z] number of
    milliseconds it denotes; [null]/[undefined] is [None].  Everything the
    code obtains from outside (the outcome of a [pgPool.query], the clock,
    [crypto.randomUUID], the mock responder, the validator library's
    [isUUID]) is read from an environment [Env], indexed by how many times
    it has been asked, so that every definition below is a total, executable
    function. *)

From stdpp Require Import gmap strings list sorting.
From Stdlib Require Import ZArith Lia Ascii.

Local Open Scope string_scope.
Local Open Scope list_scope.

(** ** Data model ([src/types/index.ts], [src/models/Conversation.js]) *)

Inductive Role := user | assistant | system.

Inductive AttachmentType := code | image | file | visualization.

Record Attachment := {
  att_type : AttachmentType;
  att_url : option string;
  att_content : option string;
  att_language : option string;
  att_chartType : option string
}.

Record Message := {
  msg_id : string;
  msg_role : Role;
  msg_content : string;
  msg_timestamp : Z;
  msg_attachments : list Attachment
}.

(** The argument of [addMessage]: [{ role, content, attachments }]. *)
Record MessageInput := {
  in_role : Role;
  in_content : string;
  in_attachments : option (list Attachment)
}.

(** A row of the [conversations] table; the primary key [id] is the key of
    the table below. *)
Record Row := {
  row_user_id : string;
  row_title : string;
  row_messages : list Message;
  row_created_at : Z;
  row_updated_at : Z
}.

(** An instance of [class Conversation], also the shape of [toJSON()] and of
    the client's [Conversation] interface. *)
Record Conversation := {
  conv_id : string;
  conv_userId : string;
  conv_title : string;
  conv_messages : list Message;
  conv_createdAt : Z;
  conv_updatedAt : Z
}.

Record ConversationSummary := {
  sum_id : string;
  sum_title : string;
  sum_messageCount : nat;
  sum_lastMessage : option Message;
  sum_createdAt : Z;
  sum_updatedAt : Z
}.

Record User := {
  usr_id : string;
  usr_name : string
}.

Global Instance Role_eq_dec : EqDecision Role.
Proof. solve_decision. Defined.
Global Instance AttachmentType_eq_dec : EqDecision AttachmentType.
Proof. solve_decision. Defined.
Global Instance Attachment_eq_dec : EqDecision Attachment.
Proof. solve_decision. Defined.
Global Instance Message_eq_dec : EqDecision Message.
Proof. solve_decision. Defined.

(** ** The environment and the world *)

Record AIResponse := {
  ai_content : string;
  ai_attachments : list Attachment
}.

Record Env := {
  (** outcome of the k-th [pgPool.query]: [None] when the promise rejects,
      [Some t] when the statement runs, [t] being its [CURRENT_TIMESTAMP] *)
  pg_outcome : nat -> option Z;
  (** the k-th [new Date()] of the server process *)
  Date_now : nat -> Z;
  (** the k-th [crypto.randomUUID()] *)
  randomUUID : nat -> string;
  (** [ApiConfig.findByUserId] followed by [generateMockResponse], for a
      message text and a user id: [None] when either throws *)
  mockResponse : string -> string -> option AIResponse;
  (** the validator library's [isUUID] *)
  isUUID : string -> bool
}.

(** A [message-received] emission: [io.to(room).emit(name, payload)]. *)
Record Emission := {
  em_room : string;
  em_event : string;
  em_conversationId : string;
  em_message : option Message
}.

Record World := {
  table : gmap string Row;      (* the conversations table *)
  queries : nat;                (* pgPool.query calls issued so far *)
  clock_reads : nat;            (* new Date() calls so far *)
  uuids : nat;                  (* randomUUID() calls so far *)
  emitted : list Emission       (* socket emissions, oldest first *)
}.

Inductive Error :=
| PgError                        (* a rejected pgPool.query *)
| TypeError                      (* new Conversation(undefined) *)
| AiError (message : string).    (* thrown by generateAIResponse *)

Inductive Result (A : Type) :=
| Ok (a : A)
| Throw (e : Error).
Arguments Ok {A} a.
Arguments Throw {A} e.

(** Stateful, fallible computations: [async] functions over the world. *)
Definition M (A : Type) : Type := World -> Result A * World.

Definition ret {A} (a : A) : M A := fun w => (Ok a, w).
Definition throw {A} (e : Error) : M A := fun w => (Throw e, w).
Definition bind {A B} (m : M A) (k : A -> M B) : M B :=
  fun w => match m w with
           | (Ok a, w') => k a w'
           | (Throw e, w') => (Throw e, w')
           end.

Notation "x <- m ;; k" := (bind m (fun x => k))
  (at level 100, m at next level, right associativity).

(** ** The store: [pgPool.query] on the conversations table *)

Definition set_table (t : gmap string Row) (w : World) : World :=
  {| table := t; queries := queries w; clock_reads := clock_reads w;
     uuids := uuids w; emitted := emitted w |}.

Definition count_query (w : World) : World :=
  {| table := table w; queries := S (queries w); clock_reads := clock_reads w;
     uuids := uuids w; emitted := emitted w |}.

(** One [await pgPool.query(...)]: the call is counted, then either rejects
    or runs [stmt] on the table at the statement's [CURRENT_TIMESTAMP]. *)
Definition pgPool_query {A} (E : Env)
    (stmt : Z -> gmap string Row -> A * gmap string Row) : M A :=
  fun w =>
    let w1 := count_query w in
    match pg_outcome E (queries w) with
    | None => (Throw PgError, w1)
    | Some t => let '(a, tbl) := stmt t (table w1) in (Ok a, set_table tbl w1)
    end.

(** JavaScript truthiness of an optional string argument. *)
Definition truthy (s : option string) : bool :=
  match s with
  | None => false
  | Some v => negb (String.eqb v "")
  end.

(** The text and parameters that [findById] builds:
    ['SELECT * FROM conversations WHERE id = $1'], extended by
    [' AND user_id = $2'] under [if (userId)]. *)
Record SelectById := {
  sel_id : string;
  sel_user_id : option string
}.

Definition findById_query (id : string) (userId : option string) : SelectById :=
  {| sel_id := id;
     sel_user_id := if truthy userId then userId else None |}.

Definition run_select (q : SelectById) (tbl : gmap string Row) : list (string * Row) :=
  match tbl !! sel_id q with
  | None => []
  | Some r =>
      match sel_user_id q with
      | None => [(sel_id q, r)]
      | Some u => if String.eqb (row_user_id r) u then [(sel_id q, r)] else []
      end
  end.

(** [new Conversation(data)] on a returned row. *)
Definition new_Conversation (data : string * Row) : Conversation :=
  {| conv_id := fst data;
     conv_userId := row_user_id (snd data);
     conv_title := row_title (snd data);
     conv_messages := row_messages (snd data);
     conv_createdAt := row_created_at (snd data);
     conv_updatedAt := row_updated_at (snd data) |}.

(** [new Conversation(result.rows[0])]: on an empty result the constructor
    reads a property of [undefined] and throws. *)
Definition first_row (rows : list (string * Row)) : M Conversation :=
  match rows with
  | [] => throw TypeError
  | r :: _ => ret (new_Conversation r)
  end.

(** [UPDATE conversations SET messages = $1, updated_at = CURRENT_TIMESTAMP
    WHERE id = $2 RETURNING *] *)
Definition update_messages (msgs : list Message) (id : string)
    (now : Z) (tbl : gmap string Row) : list (string * Row) * gmap string Row :=
  match tbl !! id with
  | None => ([], tbl)
  | Some r =>
      let r' := {| row_user_id := row_user_id r; row_title := row_title r;
                   row_messages := msgs; row_created_at := row_created_at r;
                   row_updated_at := now |} in
      ([(id, r')], <[id := r']> tbl)
  end.

(** What a [VARCHAR(n)] column takes of a value assigned to it
    ([title VARCHAR(255) NOT NULL] in [src/config/database.js]): a value of
    at most [n] characters as it is; a longer one cut to its first [n]
    characters when all that is cut off are spaces; any other is an error of
    the statement ([None]). *)
Fixpoint only_spaces (s : string) : bool :=
  match s with
  | EmptyString => true
  | String c s' => Ascii.eqb c " " && only_spaces s'
  end.

Definition varchar (n : nat) (s : string) : option string :=
  if (String.length s <=? n)%nat then Some s
  else if only_spaces (String.substring n (String.length s - n) s)
       then Some (String.substring 0 n s)
       else None.

(** [UPDATE conversations SET title = $1, updated_at = CURRENT_TIMESTAMP
    WHERE id = $2 RETURNING *].  The title is assigned to the row that is
    updated; [None] is an error of the statement, which leaves the table as
    it was. *)
Definition update_title (title : string) (id : string)
    (now : Z) (tbl : gmap string Row)
    : option (list (string * Row)) * gmap string Row :=
  match tbl !! id with
  | None => (Some [], tbl)
  | Some r =>
      match varchar 255 title with
      | None => (None, tbl)
      | Some stored =>
          let r' := {| row_user_id := row_user_id r; row_title := stored;
                       row_messages := row_messages r;
                       row_created_at := row_created_at r;
                       row_updated_at := now |} in
          (Some [(id, r')], <[id := r']> tbl)
      end
  end.

(** ** [class Conversation] *)

(** [static async findById(id, userId = null)] *)
Definition findById (E : Env) (id : string) (userId : option string)
    : M (option Conversation) :=
  rows <- pgPool_query E (fun _ tbl => (run_select (findById_query id userId) tbl, tbl)) ;;
  match rows with
  | [] => ret None
  | r :: _ => ret (Some (new_Conversation r))
  end.

(** [new Date()] and [crypto.randomUUID()]: the next reading of each. *)
Definition read_clock (E : Env) (w : World) : Z * World :=
  (Date_now E (clock_reads w),
   {| table := table w; queries := queries w;
      clock_reads := S (clock_reads w); uuids := uuids w;
      emitted := emitted w |}).

Definition fresh_uuid (E : Env) (w : World) : string * World :=
  (randomUUID E (uuids w),
   {| table := table w; queries := queries w;
      clock_reads := clock_reads w; uuids := S (uuids w);
      emitted := emitted w |}).

(** [this.messages.push(newMessage)] on the receiver. *)
Definition push (this : Conversation) (m : Message) : Conversation :=
  {| conv_id := conv_id this; conv_userId := conv_userId this;
     conv_title := conv_title this; conv_messages := conv_messages this ++ [m];
     conv_createdAt := conv_createdAt this; conv_updatedAt := conv_updatedAt this |}.

(** [async addMessage(message)].  The method builds [newMessage], pushes it
    on [this.messages] in place and only then awaits the UPDATE; the caller
    keeps a reference to the receiver, so the result pairs the receiver as
    the call leaves it with the outcome of the call. *)
Definition addMessage (E : Env) (this : Conversation) (message : MessageInput)
    : World -> (Conversation * Result Conversation) * World :=
  fun w =>
    let '(id, w1) := fresh_uuid E w in
    let '(ts, w2) := read_clock E w1 in
    let newMessage :=
      {| msg_id := id; msg_role := in_role message;
         msg_content := in_content message; msg_timestamp := ts;
         msg_attachments := default [] (in_attachments message) |} in
    let this' := push this newMessage in
    let '(r, w3) :=
      (rows <- pgPool_query E (update_messages (conv_messages this') (conv_id this')) ;;
       first_row rows) w2 in
    ((this', r), w3).

(** [async updateTitle(title)] *)
Definition updateTitle (E : Env) (this : Conversation) (title : string)
    : M Conversation :=
  rows <- pgPool_query E (update_title title (conv_id this)) ;;
  match rows with
  | None => throw PgError
  | Some rows => first_row rows
  end.

(** [getSummary()] *)
Definition getSummary (this : Conversation) : ConversationSummary :=
  {| sum_id := conv_id this;
     sum_title := conv_title this;
     sum_messageCount := length (conv_messages this);
     sum_lastMessage := last (conv_messages this);
     sum_createdAt := conv_createdAt this;
     sum_updatedAt := conv_updatedAt this |}.

(** ** [src/utils/aiService.js] *)

(** [generateAIResponse(messages, user)]: the guard on the latest message is
    the source's; what follows it is the environment's [mockResponse]. *)
Definition generateAIResponse (E : Env) (messages : list Message) (u : User)
    : Result AIResponse :=
  match last messages with
  | None => Throw (AiError "No user message found")
  | Some latestMessage =>
      if decide (msg_role latestMessage = user) then
        match mockResponse E (msg_content latestMessage) (usr_id u) with
        | Some mock => Ok {| ai_content := ai_content mock;
                             ai_attachments := ai_attachments mock |}
        | None => Throw (AiError "AI service error")
        end
      else Throw (AiError "No user message found")
  end.

(** ** [src/middleware/validation.js] *)

(** Whitespace of the regular expression class [\s], on code units below 256. *)
Definition is_space (c : ascii) : bool :=
  let n := nat_of_ascii c in
  ((n =? 32) || ((9 <=? n) && (n <=? 13)) || (n =? 160))%nat.

Fixpoint ltrim (s : string) : string :=
  match s with
  | EmptyString => EmptyString
  | String c s' => if is_space c then ltrim s' else s
  end.

Fixpoint rtrim (s : string) : string :=
  match s with
  | EmptyString => EmptyString
  | String c s' =>
      match rtrim s' with
      | EmptyString => if is_space c then EmptyString else String c EmptyString
      | t => String c t
      end
  end.

(** The [trim()] sanitizer: [rtrim(ltrim(str))]. *)
Definition trim (s : string) : string := rtrim (ltrim s).

(** [str.length] *)
Definition str_length (s : string) : Z := Z.of_nat (String.length s).

(** The [isLength({ min, max })] validator. *)
Definition isLength (min max : Z) (s : string) : bool :=
  ((min <=? str_length s) && (str_length s <=? max))%Z.

Record ValidationError := {
  ve_path : string;
  ve_msg : string
}.

(** What the handlers read of [req].  The message is the string the
    validator chain works on (a missing field is the empty string there). *)
Record Request := {
  req_params_id : string;                          (* req.params.id *)
  req_body_message : string;                       (* req.body.message *)
  req_body_attachments : option (list Attachment); (* req.body.attachments *)
  req_body_conversationId : option string;         (* req.body.conversationId *)
  req_body_title : string;                         (* req.body.title *)
  req_user : User;                                 (* set by authenticateToken *)
  req_app_io : bool                                (* app.get('io') is set *)
}.

Inductive Body :=
| conversation_body (message : string) (conversation : Conversation)
| error_body (error : string)
| validation_body (error : string) (details : list ValidationError).

Record Response := {
  status : nat;
  body : Body
}.

(** [handleValidationErrors]: 400 when the chain recorded errors, else [next()]. *)
Definition handleValidationErrors (errors : list ValidationError)
    (next : World -> Response * World) : World -> Response * World :=
  fun w =>
    match errors with
    | [] => next w
    | _ => ({| status := 400; body := validation_body "Validation failed" errors |}, w)
    end.

(** [validateUUIDParam(paramName)] *)
Definition validateUUIDParam (E : Env) (paramName : string) (value : string)
    : list ValidationError :=
  if isUUID E value then []
  else [{| ve_path := paramName; ve_msg := paramName +:+ " must be a valid UUID" |}].

(** The [body('message')] and [body('conversationId')] chains of
    [validateChatMessage]; the first also rewrites [req.body.message] to its
    trimmed form. *)
Definition sanitize_message (req : Request) : Request :=
  {| req_params_id := req_params_id req;
     req_body_message := trim (req_body_message req);
     req_body_attachments := req_body_attachments req;
     req_body_conversationId := req_body_conversationId req;
     req_body_title := req_body_title req;
     req_user := req_user req;
     req_app_io := req_app_io req |}.

Definition validateChatMessage (E : Env) (req : Request) : list ValidationError :=
  (if isLength 1 10000 (trim (req_body_message req)) then []
   else [{| ve_path := "message";
            ve_msg := "Message must be between 1 and 10000 characters" |}])
  ++
  (match req_body_conversationId req with
   | None => []
   | Some c => if isUUID E c then []
               else [{| ve_path := "conversationId";
                        ve_msg := "Conversation ID must be a valid UUID" |}]
   end).

(** ** [src/routes/chat.js] *)

Definition json (b : Body) : Response := {| status := 200; body := b |}.
Definition status_json (code : nat) (b : Body) : Response :=
  {| status := code; body := b |}.

Definition fallback_content : string :=
  "I apologize, but I encountered an error while processing your request. Please try again.".

(** [io.to(room).emit(event, payload)] *)
Definition emit (e : Emission) (w : World) : World :=
  {| table := table w; queries := queries w; clock_reads := clock_reads w;
     uuids := uuids w; emitted := emitted w ++ [e] |}.

(** The [catch (aiError)] block and the response after it. *)
Definition catch_aiError (E : Env) (conversation : Conversation)
    : World -> Response * World :=
  fun w =>
    match addMessage E conversation
            {| in_role := assistant; in_content := fallback_content;
               in_attachments := Some [] |} w with
    | ((_, Throw _), w') =>
        (status_json 500 (error_body "Failed to send message"), w')
    | ((_, Ok conversation), w') =>
        (json (conversation_body "Message sent successfully" conversation), w')
    end.

(** The handler of POST [/conversations/:id/messages], after the validators.
    [conversation] is rebound as the source rebinds it; where an
    [addMessage] throws inside the inner [try], the variable still refers to
    the receiver, which that call has already pushed onto. *)
Definition post_message_handler (E : Env) (req : Request)
    : World -> Response * World :=
  fun w =>
    let message := req_body_message req in
    let attachments := default [] (req_body_attachments req) in
    match findById E (req_params_id req) (Some (usr_id (req_user req))) w with
    | (Throw _, w1) =>
        (status_json 500 (error_body "Failed to send message"), w1)
    | (Ok None, w1) =>
        (status_json 404 (error_body "Conversation not found"), w1)
    | (Ok (Some conversation), w1) =>
        match addMessage E conversation
                {| in_role := user; in_content := message;
                   in_attachments := Some attachments |} w1 with
        | ((_, Throw _), w2) =>
            (status_json 500 (error_body "Failed to send message"), w2)
        | ((_, Ok conversation), w2) =>
            match generateAIResponse E (conv_messages conversation) (req_user req) with
            | Throw _ => catch_aiError E conversation w2
            | Ok aiResponse =>
                match addMessage E conversation
                        {| in_role := assistant;
                           in_content := ai_content aiResponse;
                           in_attachments := Some (ai_attachments aiResponse) |} w2 with
                | ((receiver, Throw _), w3) => catch_aiError E receiver w3
                | ((_, Ok conversation), w3) =>
                    let w4 :=
                      if req_app_io req then
                        emit {| em_room := "user-" +:+ usr_id (req_user req);
                                em_event := "message-received";
                                em_conversationId := conv_id conversation;
                                em_message := last (conv_messages conversation) |} w3
                      else w3 in
                    (json (conversation_body "Message sent successfully" conversation), w4)
                end
            end
        end
    end.

(** The route: [validateUUIDParam('id')], [validateChatMessage], handler
    (after [authenticateToken], which supplies [req_user]). *)
Definition post_message (E : Env) (req : Request) : World -> Response * World :=
  handleValidationErrors (validateUUIDParam E "id" (req_params_id req))
    (handleValidationErrors (validateChatMessage E req)
       (post_message_handler E (sanitize_message req))).

(** The handler of PUT [/conversations/:id]. *)
Definition put_conversation_handler (E : Env) (req : Request)
    : World -> Response * World :=
  fun w =>
    match findById E (req_params_id req) (Some (usr_id (req_user req))) w with
    | (Throw _, w1) =>
        (status_json 500 (error_body "Failed to update conversation"), w1)
    | (Ok None, w1) =>
        (status_json 404 (error_body "Conversation not found"), w1)
    | (Ok (Some conversation), w1) =>
        match updateTitle E conversation (req_body_title req) w1 with
        | (Throw _, w2) =>
            (status_json 500 (error_body "Failed to update conversation"), w2)
        | (Ok conversation, w2) =>
            (json (conversation_body "Conversation updated successfully" conversation), w2)
        end
    end.

Definition put_conversation (E : Env) (req : Request) : World -> Response * World :=
  handleValidationErrors (validateUUIDParam E "id" (req_params_id req))
    (put_conversation_handler E req).

(** ** [src/context/ChatContext.tsx] *)

Record ChatState := {
  conversations : list ConversationSummary;
  currentConversation : option Conversation;
  isLoading : bool;
  isTyping : bool;
  error : option string
}.

Inductive ChatAction :=
| SET_LOADING (payload : bool)
| SET_TYPING (payload : bool)
| SET_CONVERSATIONS (payload : list ConversationSummary)
| ADD_CONVERSATION (payload : ConversationSummary)
| UPDATE_CONVERSATION (payload : ConversationSummary)
| REMOVE_CONVERSATION (payload : string)
| SET_CURRENT_CONVERSATION (payload : option Conversation)
| ADD_MESSAGE (conversationId : string) (message : Message)
| UPDATE_CURRENT_CONVERSATION (payload : Conversation)
| SET_ERROR (payload : string)
| CLEAR_ERROR.

Definition initialState : ChatState :=
  {| conversations := []; currentConversation := None;
     isLoading := false; isTyping := false; error := None |}.

(** [state.currentConversation?.id === id] *)
Definition current_is (state : ChatState) (id : string) : bool :=
  match currentConversation state with
  | None => false
  | Some c => String.eqb (conv_id c) id
  end.

Definition chatReducer (state : ChatState) (action : ChatAction) : ChatState :=
  match action with
  | SET_LOADING payload =>
      {| conversations := conversations state;
         currentConversation := currentConversation state;
         isLoading := payload; isTyping := isTyping state; error := error state |}
  | SET_TYPING payload =>
      {| conversations := conversations state;
         currentConversation := currentConversation state;
         isLoading := isLoading state; isTyping := payload; error := error state |}
  | SET_CONVERSATIONS payload =>
      {| conversations := payload;
         currentConversation := currentConversation state;
         isLoading := isLoading state; isTyping := isTyping state;
         error := error state |}
  | ADD_CONVERSATION payload =>
      {| conversations := payload :: conversations state;
         currentConversation := currentConversation state;
         isLoading := isLoading state; isTyping := isTyping state;
         error := error state |}
  | UPDATE_CONVERSATION payload =>
      {| conversations :=
           map (fun conv => if String.eqb (sum_id conv) (sum_id payload)
                            then payload else conv)
               (conversations state);
         currentConversation := currentConversation state;
         isLoading := isLoading state; isTyping := isTyping state;
         error := error state |}
  | REMOVE_CONVERSATION payload =>
      {| conversations :=
           filter (fun conv => sum_id conv ≠ payload) (conversations state);
         currentConversation :=
           if current_is state payload then None else currentConversation state;
         isLoading := isLoading state; isTyping := isTyping state;
         error := error state |}
  | SET_CURRENT_CONVERSATION payload =>
      {| conversations := conversations state;
         currentConversation := payload;
         isLoading := isLoading state; isTyping := isTyping state;
         error := error state |}
  | ADD_MESSAGE conversationId message =>
      match currentConversation state with
      | Some current =>
          if String.eqb (conv_id current) conversationId then
            {| conversations := conversations state;
               currentConversation :=
                 Some {| conv_id := conv_id current;
                         conv_userId := conv_userId current;
                         conv_title := conv_title current;
                         conv_messages := conv_messages current ++ [message];
                         conv_createdAt := conv_createdAt current;
                         conv_updatedAt := conv_updatedAt current |};
               isLoading := isLoading state; isTyping := isTyping state;
               error := error state |}
          else state
      | None => state
      end
  | UPDATE_CURRENT_CONVERSATION payload =>
      {| conversations := conversations state;
         currentConversation := Some payload;
         isLoading := isLoading state; isTyping := isTyping state;
         error := error state |}
  | SET_ERROR payload =>
      {| conversations := conversations state;
         currentConversation := currentConversation state;
         isLoading := false; isTyping := false; error := Some payload |}
  | CLEAR_ERROR =>
      {| conversations := conversations state;
         currentConversation := currentConversation state;
         isLoading := isLoading state; isTyping := isTyping state;
         error := None |}
  end.

(** Dispatching a sequence of actions, in order. *)
Definition dispatch_all (state : ChatState) (actions : list ChatAction) : ChatState :=
  fold_left chatReducer actions state.

(** The summary object that the client builds from a returned conversation:
    [{ id, title, messageCount: messages.length,
       lastMessage: messages[messages.length - 1] || null, createdAt, updatedAt }]. *)
Definition summary_payload (conversation : Conversation) : ConversationSummary :=
  {| sum_id := conv_id conversation;
     sum_title := conv_title conversation;
     sum_messageCount := length (conv_messages conversation);
     sum_lastMessage := last (conv_messages conversation);
     sum_createdAt := conv_createdAt conversation;
     sum_updatedAt := conv_updatedAt conversation |}.

(** What [sendMessage] dispatches on the branch [response.success &&
    response.data], [updatedConv] being [response.data.conversation]. *)
Definition sendMessage_success (updatedConv : Conversation) : list ChatAction :=
  [ SET_TYPING true;
    UPDATE_CURRENT_CONVERSATION updatedConv;
    UPDATE_CONVERSATION (summary_payload updatedConv);
    SET_TYPING false ].

(** What [updateConversationTitle(id, title)] dispatches on the branch
    [response.success && response.data]; [state] is the state its closure
    reads. *)
Definition updateConversationTitle_success (state : ChatState) (id : string)
    (conversation : Conversation) : list ChatAction :=
  (if current_is state id then [SET_CURRENT_CONVERSATION (Some conversation)] else [])
  ++ [UPDATE_CONVERSATION (summary_payload conversation)].

(** * The rest of the model, of the routes and of the client *)

(** ** [class Conversation]: [create], [findByUserId], [delete] *)

(** What PostgreSQL supplies on INSERT: the [gen_random_uuid()] default of
    the [id] column, for the statement issued as query [k]. *)
Record PgDefaults := {
  gen_random_uuid : nat -> string
}.

(** [INSERT INTO conversations (user_id, title, messages) VALUES ($1, $2, $3)
    RETURNING *]; [id] is the generated key.  A key that is taken violates
    the primary key, and a title that the column does not take is an error:
    nothing is inserted and the statement fails ([None]). *)
Definition insert_conversation (id userId title : string) (messages : list Message)
    (now : Z) (tbl : gmap string Row) : option (string * Row) * gmap string Row :=
  match tbl !! id, varchar 255 title with
  | None, Some stored =>
      let r := {| row_user_id := userId; row_title := stored;
                  row_messages := messages; row_created_at := now;
                  row_updated_at := now |} in
      (Some (id, r), <[id := r]> tbl)
  | _, _ => (None, tbl)
  end.

(** [static async create({ userId, title, messages = [] })] *)
Definition create (E : Env) (D : PgDefaults) (userId title : string)
    (messages : list Message) : M Conversation :=
  fun w =>
    (inserted <- pgPool_query E
                   (insert_conversation (gen_random_uuid D (queries w))
                      userId title messages) ;;
     match inserted with
     | None => throw PgError
     | Some r => ret (new_Conversation r)
     end) w.

(** [ORDER BY updated_at DESC]: [a] may come before [b]. *)
Definition newer (a b : string * Row) : Prop :=
  (row_updated_at (snd b) ≤ row_updated_at (snd a))%Z.

Global Instance newer_dec : RelDecision newer.
Proof. intros a b. unfold newer. apply _. Defined.

(** [SELECT * FROM conversations WHERE user_id = $1 ORDER BY updated_at DESC
    LIMIT $2 OFFSET $3].  A negative LIMIT or OFFSET is an error of the
    statement ([None]).  Rows with equal [updated_at] come in the order the
    sort leaves them. *)
Definition select_by_user (userId : string) (limit offset : Z)
    (tbl : gmap string Row) : option (list (string * Row)) :=
  if ((limit <? 0) || (offset <? 0))%Z then None
  else Some (take (Z.to_nat limit)
               (drop (Z.to_nat offset)
                  (merge_sort newer
                     (filter (fun p => row_user_id (snd p) = userId)
                        (map_to_list tbl))))).

(** [static async findByUserId(userId, limit = 50, offset = 0)] *)
Definition findByUserId (E : Env) (userId : string) (limit offset : Z)
    : M (list Conversation) :=
  rows <- pgPool_query E (fun _ tbl => (select_by_user userId limit offset tbl, tbl)) ;;
  match rows with
  | None => throw PgError
  | Some rows => ret (new_Conversation <$> rows)
  end.

(** [async delete()]: [DELETE FROM conversations WHERE id = $1], then [true]. *)
Definition Conversation_delete (E : Env) (this : Conversation) : M bool :=
  _ <- pgPool_query E (fun _ tbl => (tt, delete (conv_id this) tbl)) ;;
  ret true.

(** ** [src/middleware/validation.js]: the other chains *)

(** [validateConversation]: [body('title').trim().isLength({ min: 1, max: 200 })] *)
Definition validateConversation (req : Request) : list ValidationError :=
  if isLength 1 200 (trim (req_body_title req)) then []
  else [{| ve_path := "title";
           ve_msg := "Title must be between 1 and 200 characters" |}].

Definition sanitize_title (req : Request) : Request :=
  {| req_params_id := req_params_id req;
     req_body_message := req_body_message req;
     req_body_attachments := req_body_attachments req;
     req_body_conversationId := req_body_conversationId req;
     req_body_title := trim (req_body_title req);
     req_user := req_user req;
     req_app_io := req_app_io req |}.

Definition code_unit (c : ascii) : nat := nat_of_ascii c.

Definition is_lower (c : ascii) : bool := ((97 <=? code_unit c) && (code_unit c <=? 122))%nat.
Definition is_upper (c : ascii) : bool := ((65 <=? code_unit c) && (code_unit c <=? 90))%nat.
Definition is_digit (c : ascii) : bool := ((48 <=? code_unit c) && (code_unit c <=? 57))%nat.

(** Line terminators, which [.] does not match (on code units below 256). *)
Definition is_line_terminator (c : ascii) : bool :=
  ((code_unit c =? 10) || (code_unit c =? 13))%nat.

(** The longest prefix that [.*] can match from the start of the string. *)
Fixpoint first_line (s : string) : string :=
  match s with
  | EmptyString => EmptyString
  | String c s' => if is_line_terminator c then EmptyString else String c (first_line s')
  end.

Fixpoint has_char (p : ascii -> bool) (s : string) : bool :=
  match s with
  | EmptyString => false
  | String c s' => p c || has_char p s'
  end.

(** [matches(/^(?=.*[a-z])(?=.*[A-Z])(?=.*\d)/)]: three lookaheads at the
    start, each asking for a character of its class on the first line. *)
Definition matches_password_pattern (s : string) : bool :=
  has_char is_lower (first_line s) && has_char is_upper (first_line s)
  && has_char is_digit (first_line s).

(** [isLength({ min })] *)
Definition isLength_min (min : Z) (s : string) : bool := (min <=? str_length s)%Z.

Record PasswordUpdate := {
  body_currentPassword : string;
  body_newPassword : string
}.

(** [validatePasswordUpdate]: [notEmpty()] on the current password; on the
    new one [isLength({ min: 8 })] and [matches(...)], each recording its own
    error. *)
Definition validatePasswordUpdate (b : PasswordUpdate) : list ValidationError :=
  (if String.eqb (body_currentPassword b) "" then
     [{| ve_path := "currentPassword"; ve_msg := "Current password is required" |}]
   else [])
  ++
  (if isLength_min 8 (body_newPassword b) then []
   else [{| ve_path := "newPassword";
            ve_msg := "New password must be at least 8 characters long" |}])
  ++
  (if matches_password_pattern (body_newPassword b) then []
   else [{| ve_path := "newPassword";
            ve_msg := "New password must contain at least one lowercase letter, one uppercase letter, and one number" |}]).

(** ** [src/routes/chat.js]: the other routes *)

(** The bodies these routes answer with, beside those of [Body]. *)
Inductive Payload :=
| conversation_payload (conversation : Conversation)        (* { conversation } *)
| message_payload (message : string)                        (* { message } *)
| page_payload (conversations : list ConversationSummary)   (* { conversations, *)
    (page limit : Z) (hasMore : bool)                       (*   pagination } *)
| body_payload (b : Body).

Record Reply := {
  reply_status : nat;
  reply_payload : Payload
}.

Definition reply_error (code : nat) (error : string) : Reply :=
  {| reply_status := code; reply_payload := body_payload (error_body error) |}.

(** [handleValidationErrors], for the routes that answer with a [Reply]. *)
Definition handleValidationErrors_reply (errors : list ValidationError)
    (next : World -> Reply * World) : World -> Reply * World :=
  fun w =>
    match errors with
    | [] => next w
    | _ => ({| reply_status := 400;
               reply_payload := body_payload (validation_body "Validation failed" errors) |}, w)
    end.

(** [req.query] of GET [/conversations], for values that are decimal
    numerals, as the client writes them ([?page=${page}&limit=${limit}]);
    [None] is a missing parameter. *)
Record ListQuery := {
  query_page : option Z;
  query_limit : option Z
}.

(** GET [/conversations] *)
Definition get_conversations (E : Env) (u : User) (q : ListQuery)
    : World -> Reply * World :=
  fun w =>
    let page := default 1%Z (query_page q) in
    let limit := default 20%Z (query_limit q) in
    let offset := ((page - 1) * limit)%Z in
    match findByUserId E (usr_id u) limit offset w with
    | (Throw _, w1) => (reply_error 500 "Failed to fetch conversations", w1)
    | (Ok conversations, w1) =>
        ({| reply_status := 200;
            reply_payload :=
              page_payload (getSummary <$> conversations) page limit
                (Z.of_nat (length conversations) =? limit)%Z |}, w1)
    end.

(** GET [/conversations/:id] *)
Definition get_conversation_handler (E : Env) (req : Request)
    : World -> Reply * World :=
  fun w =>
    match findById E (req_params_id req) (Some (usr_id (req_user req))) w with
    | (Throw _, w1) => (reply_error 500 "Failed to fetch conversation", w1)
    | (Ok None, w1) => (reply_error 404 "Conversation not found", w1)
    | (Ok (Some conversation), w1) =>
        ({| reply_status := 200;
            reply_payload := conversation_payload conversation |}, w1)
    end.

Definition get_conversation (E : Env) (req : Request) : World -> Reply * World :=
  handleValidationErrors_reply (validateUUIDParam E "id" (req_params_id req))
    (get_conversation_handler E req).

(** POST [/conversations] *)
Definition post_conversation_handler (E : Env) (D : PgDefaults) (req : Request)
    : World -> Reply * World :=
  fun w =>
    match create E D (usr_id (req_user req)) (req_body_title req) [] w with
    | (Throw _, w1) => (reply_error 500 "Failed to create conversation", w1)
    | (Ok conversation, w1) =>
        ({| reply_status := 201;
            reply_payload :=
              body_payload (conversation_body "Conversation created successfully"
                              conversation) |}, w1)
    end.

Definition post_conversation (E : Env) (D : PgDefaults) (req : Request)
    : World -> Reply * World :=
  handleValidationErrors_reply (validateConversation req)
    (post_conversation_handler E D (sanitize_title req)).

(** DELETE [/conversations/:id] *)
Definition delete_conversation_handler (E : Env) (req : Request)
    : World -> Reply * World :=
  fun w =>
    match findById E (req_params_id req) (Some (usr_id (req_user req))) w with
    | (Throw _, w1) => (reply_error 500 "Failed to delete conversation", w1)
    | (Ok None, w1) => (reply_error 404 "Conversation not found", w1)
    | (Ok (Some conversation), w1) =>
        match Conversation_delete E conversation w1 with
        | (Throw _, w2) => (reply_error 500 "Failed to delete conversation", w2)
        | (Ok _, w2) =>
            ({| reply_status := 200;
                reply_payload := message_payload "Conversation deleted successfully" |}, w2)
        end
    end.

Definition delete_conversation (E : Env) (req : Request) : World -> Reply * World :=
  handleValidationErrors_reply (validateUUIDParam E "id" (req_params_id req))
    (delete_conversation_handler E req).

(** ** [src/context/ChatContext.tsx]: what the other operations dispatch *)

(** [createConversation] on the branch [response.success && response.data]. *)
Definition createConversation_success (conversation : Conversation)
    : list ChatAction :=
  [ADD_CONVERSATION (summary_payload conversation);
   SET_CURRENT_CONVERSATION (Some conversation)].

(** [sendMessage] when the call throws or the response is not a success. *)
Definition sendMessage_failure (message : string) : list ChatAction :=
  [SET_TYPING true; SET_ERROR message; SET_TYPING false].

(** [deleteConversation] on the branch [response.success]. *)
Definition deleteConversation_success (id : string) : list ChatAction :=
  [REMOVE_CONVERSATION id].

(** ** [src/types/index.ts], [src/services/api.ts]: the response as the client
    reads it *)

(** [ApiResponse<T>]: the fields [success], [data] and [error] of the parsed
    body, which is what the methods of [apiService] return; a field that the
    body does not have reads [undefined] ([None]).  For the calls that
    return a conversation, [data] stands for [data.conversation]. *)
Record ApiResponse (T : Type) := {
  api_success : option bool;
  api_data : option T;
  api_error : option string
}.

Arguments api_success {T} _.
Arguments api_data {T} _.
Arguments api_error {T} _.

(** The objects that the routes of [src/routes/chat.js] pass to [res.json]:
    [{ message, conversation }], [{ error }], [{ error, details }],
    [{ conversation }], [{ message }] and [{ conversations, pagination }]. *)
Definition read_body {T} (b : Body) : ApiResponse T :=
  match b with
  | conversation_body _ _ =>
      {| api_success := None; api_data := None; api_error := None |}
  | error_body e | validation_body e _ =>
      {| api_success := None; api_data := None; api_error := Some e |}
  end.

Definition read_payload {T} (p : Payload) : ApiResponse T :=
  match p with
  | body_payload b => read_body b
  | conversation_payload _ | message_payload _ | page_payload _ _ _ _ =>
      {| api_success := None; api_data := None; api_error := None |}
  end.

(** [response.error || fallback] *)
Definition error_or {T} (response : ApiResponse T) (fallback : string) : string :=
  if truthy (api_error response) then default fallback (api_error response)
  else fallback.

(** [sendMessage], once [apiService.sendMessage] has resolved with
    [response]: what it dispatches, and whether it throws. *)
Definition sendMessage_resolved (response : ApiResponse Conversation)
    : list ChatAction * bool :=
  match api_success response, api_data response with
  | Some true, Some updatedConv => (sendMessage_success updatedConv, false)
  | _, _ => (sendMessage_failure (error_or response "Failed to send message"), true)
  end.

(** [updateConversationTitle(id, title)], once the call has resolved;
    [state] is the state its closure reads. *)
Definition updateConversationTitle_resolved (state : ChatState) (id : string)
    (response : ApiResponse Conversation) : list ChatAction * bool :=
  match api_success response, api_data response with
  | Some true, Some conversation =>
      (updateConversationTitle_success state id conversation, false)
  | _, _ => ([SET_ERROR (error_or response "Failed to update conversation")], true)
  end.

(** The listener that [ChatProvider] registers with
    [socketService.onMessageReceived], on the [data] of an event. *)
Definition onMessageReceived (conversationId : string) (message : Message)
    : list ChatAction :=
  [ADD_MESSAGE conversationId message].

(** [deleteConversation(id)], once the call has resolved. *)
Definition deleteConversation_resolved (id : string) (response : ApiResponse unit)
    : list ChatAction * bool :=
  match api_success response with
  | Some true => (deleteConversation_success id, false)
  | _ => ([SET_ERROR (error_or response "Failed to delete conversation")], true)
  end.

(** [loadConversations], once the call has resolved: [if (response.data)]. *)
Definition loadConversations_resolved
    (response : ApiResponse (list ConversationSummary)) : list ChatAction :=
  [SET_LOADING true]
  ++ match api_data response with
     | Some data => [SET_CONVERSATIONS data]
     | None => []
     end
  ++ [SET_LOADING false].

(** ** [src/utils/aiService.js]: [detectLanguage] *)

(** [toLowerCase()] on code units below 256. *)
Definition lower_unit (c : ascii) : ascii :=
  let n := code_unit c in
  if (((65 <=? n) && (n <=? 90))
      || ((192 <=? n) && (n <=? 222) && negb (n =? 215)))%nat
  then ascii_of_nat (n + 32) else c.

Fixpoint toLowerCase (s : string) : string :=
  match s with
  | EmptyString => EmptyString
  | String c s' => String (lower_unit c) (toLowerCase s')
  end.

Fixpoint starts_with (sub s : string) : bool :=
  match sub, s with
  | EmptyString, _ => true
  | String _ _, EmptyString => false
  | String a sub', String b s' => Ascii.eqb a b && starts_with sub' s'
  end.

(** [s.includes(sub)] *)
Fixpoint includes (s sub : string) : bool :=
  starts_with sub s ||
  match s with
  | EmptyString => false
  | String _ s' => includes s' sub
  end.

Inductive Language := javascript | python | react.

Definition detectLanguage (message : string) : Language :=
  let message_lower := toLowerCase message in
  if includes message_lower "react" || includes message_lower "jsx"
     || includes message_lower "component" then react
  else if includes message_lower "python" || includes message_lower "django"
          || includes message_lower "flask" then python
  else if includes message_lower "javascript" || includes message_lower "node"
          || includes message_lower "js" then javascript
  else javascript.

(** Which branch of [generateMockResponse] answers a message, for a user
    with [configs] API configurations. *)
Inductive MockBranch :=
| code_request (language : Language)
| api_request
| data_request
| general_request.

Definition mock_branch (userMessage : string) (configs : nat) : MockBranch :=
  let message := toLowerCase userMessage in
  if includes message "code" || includes message "function"
     || includes message "script" then code_request (detectLanguage userMessage)
  else if includes message "api" && (0 <? configs)%nat then api_request
  else if includes message "analyze" || includes message "data"
          || includes message "chart" then data_request
  else general_request.

(** ** [src/models/ApiConfig.js]: [toSafeJSON] *)

(** The [credentials] of a configuration: its keys with their values, in the
    order of [Object.keys]. *)
Definition Credentials := list (string * option string).

(** The reduction over [Object.keys(obj.credentials)]:
    [acc[key] = obj.credentials[key] ? '***' : null]. *)
Definition mask_credentials (credentials : Credentials) : Credentials :=
  (fun kv => (fst kv, if truthy (snd kv) then Some "***" else None)) <$> credentials.


(** ** [src/components/chat/ChatInput.tsx]: [handleSubmit] *)

(** The title of the conversation that a first message opens:
    [messageText.length > 50 ? messageText.substring(0, 50) + '...' : messageText] *)
Definition first_title (messageText : string) : string :=
  if (50 <? str_length messageText)%Z
  then String.substring 0 50 messageText +:+ "..."
  else messageText.

(** What [handleSubmit] asks of the context. *)
Inductive Submission :=
| nothing_submitted
| create_then_send (title messageText : string)   (* createConversation, sendMessage *)
| send_only (conversationId messageText : string).

(** [handleSubmit], for the text typed, the number of files attached and the
    id of the open conversation, if there is one. *)
Definition handleSubmit (message : string) (attachments : nat)
    (conversationId : option string) : Submission :=
  if String.eqb (trim message) "" && (attachments =? 0)%nat then nothing_submitted
  else
    let messageText := trim message in
    match conversationId with
    | Some id => if String.eqb id "" then create_then_send (first_title messageText) messageText
                 else send_only id messageText
    | None => create_then_send (first_title messageText) messageText
    end.

(** The request that [apiService.createConversation(title)] posts for [u]. *)
Definition create_request (u : User) (title : string) : Request :=
  {| req_params_id := ""; req_body_message := "";
     req_body_attachments := None; req_body_conversationId := None;
     req_body_title := title; req_user := u; req_app_io := true |}.

(** ** [src/routes/user.js]: the dashboard *)

Record DashboardStats := {
  conversationCount : nat;
  apiConfigCount : nat;
  totalMessages : nat
}.

Record Dashboard := {
  dash_stats : DashboardStats;
  dash_recent : list ConversationSummary     (* recentActivity.conversations *)
}.

(** GET [/dashboard].  [ApiConfig.findByUserId] reads another store: it
    answers with [apiConfigs] configurations, or throws ([None]).  The [user]
    field of the body, [req.user.toJSON()], is left out. *)
Definition get_dashboard (E : Env) (u : User) (apiConfigs : option nat)
    : World -> (nat * option Dashboard) * World :=
  fun w =>
    match findByUserId E (usr_id u) 5 0 w with
    | (Throw _, w1) => ((500, None), w1)
    | (Ok conversations, w1) =>
        match apiConfigs with
        | None => ((500, None), w1)
        | Some n =>
            ((200,
              Some {| dash_stats :=
                        {| conversationCount := length conversations;
                           apiConfigCount := n;
                           totalMessages :=
                             foldl (fun total conv => total + length (conv_messages conv))
                               0 conversations |};
                      dash_recent := getSummary <$> take 3 conversations |}), w1)
        end
    end.

(** ** [src/pages/Register.tsx] and the registration chain of
    [src/middleware/validation.js] *)

Record RegisterCredentials := {
  reg_email : string;
  reg_password : string;
  reg_name : string
}.

(** [/\S+@\S+\.\S+/.test(s)].  After an [@], the text must go on with
    characters that are not spaces, among them a dot that is not the first
    and that one more such character follows. *)
Definition next_is_not_space (s : string) : bool :=
  match s with
  | EmptyString => false
  | String c _ => negb (is_space c)
  end.

Fixpoint dot_follows (seen : bool) (s : string) : bool :=
  match s with
  | EmptyString => false
  | String c s' =>
      if is_space c then false
      else if seen && Ascii.eqb c "." && next_is_not_space s' then true
      else dot_follows true s'
  end.

(** [prev]: the character before is not a space. *)
Fixpoint at_follows (prev : bool) (s : string) : bool :=
  match s with
  | EmptyString => false
  | String c s' =>
      (prev && Ascii.eqb c "@" && dot_follows false s')
      || at_follows (negb (is_space c)) s'
  end.

Definition looks_like_email (s : string) : bool := at_follows false s.

(** [newErrors], by field. *)
Record FormErrors := {
  err_name : option string;
  err_email : option string;
  err_password : option string;
  err_confirmPassword : option string
}.

Definition form_errors (c : RegisterCredentials) (confirmPassword : string)
    : FormErrors :=
  {| err_name :=
       if String.eqb (trim (reg_name c)) "" then Some "Name is required"
       else if (str_length (trim (reg_name c)) <? 2)%Z
            then Some "Name must be at least 2 characters"
       else None;
     err_email :=
       if String.eqb (reg_email c) "" then Some "Email is required"
       else if negb (looks_like_email (reg_email c)) then Some "Email is invalid"
       else None;
     err_password :=
       if String.eqb (reg_password c) "" then Some "Password is required"
       else if (str_length (reg_password c) <? 8)%Z
            then Some "Password must be at least 8 characters"
       else if negb (matches_password_pattern (reg_password c))
            then Some "Password must contain at least one lowercase letter, one uppercase letter, and one number"
       else None;
     err_confirmPassword :=
       if String.eqb confirmPassword "" then Some "Please confirm your password"
       else if negb (String.eqb (reg_password c) confirmPassword)
            then Some "Passwords do not match"
       else None |}.

(** [validateForm]: [Object.keys(newErrors).length === 0] *)
Definition validateForm (c : RegisterCredentials) (confirmPassword : string) : bool :=
  match form_errors c confirmPassword with
  | {| err_name := None; err_email := None; err_password := None;
       err_confirmPassword := None |} => true
  | _ => false
  end.

(** [validateUserRegistration]; [isEmail] is the library's. *)
Definition validateUserRegistration (isEmail : string -> bool)
    (c : RegisterCredentials) : list ValidationError :=
  (if isEmail (reg_email c) then []
   else [{| ve_path := "email"; ve_msg := "Please provide a valid email" |}])
  ++
  (if isLength_min 8 (reg_password c) then []
   else [{| ve_path := "password";
            ve_msg := "Password must be at least 8 characters long" |}])
  ++
  (if matches_password_pattern (reg_password c) then []
   else [{| ve_path := "password";
            ve_msg := "Password must contain at least one lowercase letter, one uppercase letter, and one number" |}])
  ++
  (if isLength 2 50 (trim (reg_name c)) then []
   else [{| ve_path := "name"; ve_msg := "Name must be between 2 and 50 characters" |}]).


(** * Vocabulary of the properties *)

(** The message that an [addMessage] issued [k] appends after the world [w]
    builds: its id and timestamp are the next readings of the environment. *)
Definition message_at (E : Env) (k : nat) (w : World)
    (role : Role) (content : string) (attachments : list Attachment) : Message :=
  {| msg_id := randomUUID E (k + uuids w);
     msg_role := role;
     msg_content := content;
     msg_timestamp := Date_now E (k + clock_reads w);
     msg_attachments := attachments |}.

(** The row [r] once an UPDATE has set its messages, resp. its title, at
    the timestamp [now]. *)
Definition with_messages (r : Row) (msgs : list Message) (now : Z) : Row :=
  {| row_user_id := row_user_id r; row_title := row_title r;
     row_messages := msgs; row_created_at := row_created_at r;
     row_updated_at := now |}.

Definition with_title (r : Row) (title : string) (now : Z) : Row :=
  {| row_user_id := row_user_id r; row_title := title;
     row_messages := row_messages r; row_created_at := row_created_at r;
     row_updated_at := now |}.

(** The world after [k] appends were attempted, the table being [tbl]. *)
Definition advance (k : nat) (tbl : gmap string Row) (w : World) : World :=
  {| table := tbl; queries := k + queries w; clock_reads := k + clock_reads w;
     uuids := k + uuids w; emitted := emitted w |}.

(** The request passes [validateUUIDParam('id')] and [validateChatMessage],
    the caller has an id, and the conversation [req.params.id] is the row
    [r], owned by the caller. *)
Definition valid_submission (E : Env) (req : Request) (w : World) (r : Row) : Prop :=
  isUUID E (req_params_id req) = true ∧
  validateChatMessage E req = [] ∧
  truthy (Some (usr_id (req_user req))) = true ∧
  table w !! req_params_id req = Some r ∧
  row_user_id r = usr_id (req_user req).

(** The user message of the call, the assistant message for a reply [ai],
    and the fallback message when it is the [k]-th append of the call. *)
Definition user_message (E : Env) (req : Request) (w : World) : Message :=
  message_at E 0 w user (trim (req_body_message req))
    (default [] (req_body_attachments req)).

Definition assistant_message (E : Env) (ai : AIResponse) (w : World) : Message :=
  message_at E 1 w assistant (ai_content ai) (ai_attachments ai).

Definition fallback_message (E : Env) (k : nat) (w : World) : Message :=
  message_at E k w assistant fallback_content [].

(** The emission that carries [m] to the room of the caller. *)
Definition message_received (req : Request) (conversationId : string)
    (m : Message) : Emission :=
  {| em_room := "user-" +:+ usr_id (req_user req);
     em_event := "message-received";
     em_conversationId := conversationId;
     em_message := Some m |}.

(** The world a call leaves: [nq] queries issued, [na] appends attempted,
    [ems] emitted, and the table [tbl]. *)
Definition world_after (tbl : gmap string Row) (nq na : nat)
    (ems : list Emission) (w : World) : World :=
  {| table := tbl; queries := nq + queries w; clock_reads := na + clock_reads w;
     uuids := na + uuids w; emitted := emitted w ++ ems |}.

(** The conversation and the world that a successful response leaves, for
    the messages [added] after those of [r], [t] being the timestamp of the
    last UPDATE. *)
Definition returned (req : Request) (r : Row) (added : list Message) (t : Z)
    : Conversation :=
  new_Conversation (req_params_id req, with_messages r (row_messages r ++ added) t).

Definition persisted (req : Request) (r : Row) (added : list Message) (t : Z)
    (w : World) : gmap string Row :=
  <[req_params_id req := with_messages r (row_messages r ++ added) t]> (table w).

(** The two responses of the handler after the conversation was found. *)
Definition sent (c : Conversation) : Response :=
  json (conversation_body "Message sent successfully" c).

Definition failed_to_send : Response :=
  status_json 500 (error_body "Failed to send message").

(** The result of the route on a valid submission, tabulated by what the
    environment answers: the four queries it may issue and the responder. *)
Definition submission_outcome (E : Env) (req : Request) (w : World) (r : Row)
    : Response * World :=
  let q := queries w in
  let um := user_message E req w in
  match pg_outcome E q with
  | None => (failed_to_send, world_after (table w) 1 0 [] w)
  | Some _ =>
    match pg_outcome E (1 + q) with
    | None => (failed_to_send, world_after (table w) 2 1 [] w)
    | Some t1 =>
      match mockResponse E (trim (req_body_message req)) (usr_id (req_user req)) with
      | None =>
          let fb := fallback_message E 1 w in
          match pg_outcome E (2 + q) with
          | None => (failed_to_send, world_after (persisted req r [um] t1 w) 3 2 [] w)
          | Some t2 =>
              (sent (returned req r [um; fb] t2),
               world_after (persisted req r [um; fb] t2 w) 3 2 [] w)
          end
      | Some ai =>
          let am := assistant_message E ai w in
          match pg_outcome E (2 + q) with
          | Some t2 =>
              (sent (returned req r [um; am] t2),
               world_after (persisted req r [um; am] t2 w) 3 2
                 (if req_app_io req
                  then [message_received req (req_params_id req) am] else []) w)
          | None =>
              let fb := fallback_message E 2 w in
              match pg_outcome E (3 + q) with
              | None => (failed_to_send, world_after (persisted req r [um] t1 w) 4 3 [] w)
              | Some t3 =>
                  (sent (returned req r [um; am; fb] t3),
                   world_after (persisted req r [um; am; fb] t3 w) 4 3 [] w)
              end
          end
      end
    end
  end.

(** How many messages of a sequence carry the id [id]. *)
Definition count_id (id : string) (ms : list Message) : nat :=
  length (filter (fun m => msg_id m = id) ms).

(** [n] times the character [c]. *)
Fixpoint copies (n : nat) (c : ascii) : string :=
  match n with
  | 0 => EmptyString
  | S n' => String c (copies n' c)
  end.

(** Ten thousand letters followed by a space: 10001 characters. *)
Definition padded_text : string := copies (Z.to_nat 10000) "a"%char +:+ " ".

(** The successful response of the rename. *)
Definition updated (c : Conversation) : Response :=
  json (conversation_body "Conversation updated successfully" c).

(** What [UPDATE_CONVERSATION] does to the list: the entries with the
    payload's id become the payload, where they stand. *)
Definition replace_in_place (payload : ConversationSummary)
    (l : list ConversationSummary) : list ConversationSummary :=
  map (fun conv => if String.eqb (sum_id conv) (sum_id payload) then payload else conv) l.

(** The server's clock does not run backwards. *)
Definition clock_monotone (E : Env) : Prop :=
  ∀ i j : nat, (i ≤ j)%nat → (Date_now E i ≤ Date_now E j)%Z.

(** The timestamps of a message sequence are non-decreasing in sequence
    order. *)
Definition timestamps_sorted (ms : list Message) : Prop :=
  StronglySorted Z.le (msg_timestamp <$> ms).

(** No message of the sequence is later than [t]. *)
Definition not_after (t : Z) (ms : list Message) : Prop :=
  Forall (fun m => (msg_timestamp m ≤ t)%Z) ms.

(** A message sequence is in order at the world [w]: its timestamps are
    non-decreasing and none is after the next reading of the clock. *)
Definition sequence_in_order (E : Env) (w : World) (ms : list Message) : Prop :=
  timestamps_sorted ms ∧ not_after (Date_now E (clock_reads w)) ms.

(** Every stored conversation is in order. *)
Definition table_in_order (E : Env) (w : World) : Prop :=
  ∀ id r, table w !! id = Some r → sequence_in_order E w (row_messages r).

(** A list of conversations is ordered most recently updated first. *)
Definition newest_first (cs : list Conversation) : Prop :=
  StronglySorted (fun a b => (conv_updatedAt b ≤ conv_updatedAt a)%Z) cs.

(** The rows of [userId], as many as there are. *)
Definition rows_of (userId : string) (tbl : gmap string Row) : list (string * Row) :=
  filter (fun p => row_user_id (snd p) = userId) (map_to_list tbl).

(** The row [r'] is [r] with messages added at the end: same owner, title
    and creation time, and the messages of [r] as a prefix of its own. *)
Definition row_grows (r r' : Row) : Prop :=
  row_user_id r' = row_user_id r ∧
  row_title r' = row_title r ∧
  row_created_at r' = row_created_at r ∧
  row_messages r `prefix_of` row_messages r'.

(** From [tbl] to [tbl'] nothing changed but the row [id], which, if it was
    there, is there still and has grown; no row appeared. *)
Definition only_grows_at (id : string) (tbl tbl' : gmap string Row) : Prop :=
  (∀ id', id' ≠ id → tbl' !! id' = tbl !! id') ∧
  match tbl !! id with
  | None => tbl' !! id = None
  | Some r => ∃ r', tbl' !! id = Some r' ∧ row_grows r r'
  end.

(** The conversation object [c] stands for the row [id] and holds at least
    the messages stored there. *)
Definition attached (id : string) (tbl : gmap string Row) (c : Conversation) : Prop :=
  conv_id c = id ∧
  ∀ r, tbl !! id = Some r → row_messages r `prefix_of` conv_messages c.

(** The rename has answered with the conversation and stored the row [r]
    with the title [stored] and the timestamp [t]: the messages, the owner
    and the creation time are those of [r], the other rows and the
    emissions those of [w]. *)
Definition renamed_as (req : Request) (r : Row) (stored : string) (t : Z)
    (w : World) (result : Response * World) : Prop :=
  fst result = updated (new_Conversation (req_params_id req, with_title r stored t)) ∧
  table (snd result) = <[req_params_id req := with_title r stored t]> (table w) ∧
  emitted (snd result) = emitted w.




Definition after_rename (state : ChatState) (id : string)
    (response : ApiResponse Conversation) : ChatState :=
  dispatch_all state (fst (updateConversationTitle_resolved state id response)).

(** * Concrete scenarios

    The conversation "Demo" of user alice, empty at first, and user bob who
    does not own it.  The clock, the ids and the statement timestamps count
    up; the environments differ in what the store and the responder answer.
    On the client, "Demo" is open, alone in the list or listed after
    "Notes". *)

Module Demo.

(** Ids are UUIDs, as the columns and [crypto.randomUUID] have them. *)
Definition c0 : string := "c0000000-0000-4000-8000-000000000000".
Definition c1 : string := "c0000000-0000-4000-8000-000000000001".
Definition c2 : string := "c0000000-0000-4000-8000-000000000002".
Definition alice_id : string := "a11ce000-0000-4000-8000-00000000000a".
Definition bob_id : string := "b0b00000-0000-4000-8000-00000000000b".
Definition m0 : string := "00000000-0000-4000-8000-000000000000".
Definition m1 : string := "00000000-0000-4000-8000-000000000001".
Definition m2 : string := "00000000-0000-4000-8000-000000000002".
Definition m3 : string := "00000000-0000-4000-8000-000000000003".

Definition alice : User := {| usr_id := alice_id; usr_name := "Alice" |}.
Definition bob : User := {| usr_id := bob_id; usr_name := "Bob" |}.

Definition reply : AIResponse :=
  {| ai_content := "Hi there"; ai_attachments := [] |}.

(** A stand-in for the library's [isUUID]: 36 characters, hyphens at
    positions 8, 13, 18 and 23, hexadecimal digits elsewhere. *)
Definition is_hex (c : ascii) : bool :=
  let n := nat_of_ascii c in
  (((48 <=? n) && (n <=? 57)) || ((65 <=? n) && (n <=? 70))
   || ((97 <=? n) && (n <=? 102)))%nat.

Fixpoint uuid_from (i : nat) (s : string) : bool :=
  match s with
  | EmptyString => (i =? 36)%nat
  | String c s' =>
      (if ((i =? 8) || (i =? 13) || (i =? 18) || (i =? 23))%nat
       then Ascii.eqb c "-" else is_hex c)
      && uuid_from (S i) s'
  end.

Definition uuid_shaped (s : string) : bool := uuid_from 0 s.

Definition env (pg : nat → option Z) (mock : option AIResponse) : Env :=
  {| pg_outcome := pg;
     Date_now := fun k => (500 + Z.of_nat k)%Z;
     randomUUID := fun k => match k with
                            | 0 => m0 | 1 => m1 | 2 => m2 | _ => m3
                            end;
     mockResponse := fun _ _ => mock;
     isUUID := uuid_shaped |}.

(** every statement runs *)
Definition store_up : nat → option Z := fun k => Some (1000 + Z.of_nat k)%Z.
(** the third query of a call (the assistant append) is rejected, the
    others run *)
Definition store_hiccup : nat → option Z :=
  fun k => match k with
           | 2 => None
           | _ => Some (1000 + Z.of_nat k)%Z
           end.

Definition row : Row :=
  {| row_user_id := alice_id; row_title := "Demo"; row_messages := [];
     row_created_at := 1; row_updated_at := 1 |}.

Definition world : World :=
  {| table := {[ c1 := row ]}; queries := 0; clock_reads := 0;
     uuids := 0; emitted := [] |}.

Definition request (u : User) (text : string) : Request :=
  {| req_params_id := c1; req_body_message := text;
     req_body_attachments := None; req_body_conversationId := None;
     req_body_title := "Renamed"; req_user := u; req_app_io := true |}.

Definition hello : Request := request alice "Hello".

End Demo.

Module ClientDemo.

Definition greeting : Message :=
  {| msg_id := Demo.m1; msg_role := assistant; msg_content := "Hi there";
     msg_timestamp := 501; msg_attachments := [] |}.

Definition demo : Conversation :=
  {| conv_id := Demo.c1; conv_userId := Demo.alice_id; conv_title := "Demo";
     conv_messages := []; conv_createdAt := 1; conv_updatedAt := 1 |}.

(** "Demo" is open and is the only conversation listed. *)
Definition open_demo : ChatState :=
  {| conversations := [summary_payload demo];
     currentConversation := Some demo;
     isLoading := false; isTyping := false; error := None |}.

End ClientDemo.

Module ListDemo.

Definition notes : ConversationSummary :=
  {| sum_id := Demo.c0; sum_title := "Notes"; sum_messageCount := 0;
     sum_lastMessage := None; sum_createdAt := 0; sum_updatedAt := 7 |}.

(** Two conversations listed, most recently updated first; "Demo" is open. *)
Definition two_listed : ChatState :=
  {| conversations := [notes; summary_payload ClientDemo.demo];
     currentConversation := Some ClientDemo.demo;
     isLoading := false; isTyping := false; error := None |}.

Definition E : Env := Demo.env Demo.store_up (Some Demo.reply).

Definition after_rename : World :=
  world_after (<[Demo.c1 := with_title Demo.row "Renamed" 1001]> (table Demo.world))
    2 0 [] Demo.world.
Definition answered : Conversation :=
  returned Demo.hello Demo.row
    [user_message E Demo.hello Demo.world;
     assistant_message E Demo.reply Demo.world] 1002.
Definition after_answer : World :=
  world_after
    (persisted Demo.hello Demo.row
       [user_message E Demo.hello Demo.world;
        assistant_message E Demo.reply Demo.world] 1002 Demo.world)
    3 2
    [message_received Demo.hello Demo.c1 (assistant_message E Demo.reply Demo.world)]
    Demo.world.

End ListDemo.

Module StoreDemo.

(** the store rejects the third and the fourth query of a call *)
Definition store_down_after_user : nat → option Z :=
  fun k => match k with
           | 2 | 3 => None
           | _ => Some (1000 + Z.of_nat k)%Z
           end.

Definition E_down : Env := Demo.env store_down_after_user (Some Demo.reply).

(** the world that the failed call leaves *)
Definition after_failure : World :=
  world_after
    (persisted Demo.hello Demo.row [user_message E_down Demo.hello Demo.world]
       1001 Demo.world)
    4 3 [] Demo.world.

(** the key that the next INSERT generates *)
Definition next_key : PgDefaults := {| gen_random_uuid := fun _ => Demo.c2 |}.

End StoreDemo.

(** * Properties *)

(** ** One step of the store and of the model *)

Lemma truthy_Some (s : string) : s ≠ "" → truthy (Some s) = true.
Proof.
  intros Hs. unfold truthy.
  destruct (String.eqb_spec s "") as [->|_]; [congruence | reflexivity].
Qed.

Lemma varchar_fits n s : (String.length s ≤ n)%nat → varchar n s = Some s.
Proof.
  intros Hlen. unfold varchar.
  destruct (Nat.leb_spec (String.length s) n) as [_|Hgt]; [reflexivity | lia].
Qed.

Lemma varchar_255_fits s : (str_length s ≤ 255)%Z → varchar 255 s = Some s.
Proof. unfold str_length. intros Hlen. apply varchar_fits. lia. Qed.

Lemma updateTitle_runs E this title stored w t r :
  pg_outcome E (queries w) = Some t →
  table w !! conv_id this = Some r →
  varchar 255 title = Some stored →
  updateTitle E this title w =
    (Ok (new_Conversation (conv_id this, with_title r stored t)),
     set_table (<[conv_id this := with_title r stored t]> (table w)) (count_query w)).
Proof.
  intros Hq Hr Hfit. unfold updateTitle, bind, pgPool_query, update_title.
  rewrite Hq. cbn. rewrite Hr, Hfit. reflexivity.
Qed.

Lemma updateTitle_refused E this title w t r :
  pg_outcome E (queries w) = Some t →
  table w !! conv_id this = Some r →
  varchar 255 title = None →
  updateTitle E this title w = (Throw PgError, count_query w).
Proof.
  intros Hq Hr Hfit. unfold updateTitle, bind, pgPool_query, update_title.
  rewrite Hq. cbn. rewrite Hr, Hfit. cbn. destruct w; reflexivity.
Qed.

Lemma findById_owned E id uid w t r :
  pg_outcome E (queries w) = Some t →
  table w !! id = Some r →
  uid ≠ "" →
  row_user_id r = uid →
  findById E id (Some uid) w = (Ok (Some (new_Conversation (id, r))), count_query w).
Proof.
  intros Hq Hr Hu Ho.
  unfold findById, bind, pgPool_query, run_select, findById_query.
  rewrite Hq, (truthy_Some _ Hu). cbn. rewrite Hr. cbn.
  rewrite Ho, String.eqb_refl. reflexivity.
Qed.

Lemma findById_foreign E id uid w t r :
  pg_outcome E (queries w) = Some t →
  table w !! id = Some r →
  uid ≠ "" →
  row_user_id r ≠ uid →
  findById E id (Some uid) w = (Ok None, count_query w).
Proof.
  intros Hq Hr Hu Ho.
  unfold findById, bind, pgPool_query, run_select, findById_query.
  rewrite Hq, (truthy_Some _ Hu). cbn. rewrite Hr. cbn.
  destruct (String.eqb_spec (row_user_id r) uid); [congruence | reflexivity].
Qed.


Lemma findById_rejected E id uid w :
  pg_outcome E (queries w) = None →
  findById E id uid w = (Throw PgError, count_query w).
Proof.
  intros Hq. unfold findById, bind, pgPool_query. rewrite Hq. reflexivity.
Qed.

(** What [findById] can return at all. *)
Lemma findById_inv E id uid w res w' :
  findById E id uid w = (res, w') →
  w' = count_query w ∧
  (res = Throw PgError ∧ pg_outcome E (queries w) = None
   ∨ res = Ok None ∧ is_Some (pg_outcome E (queries w))
   ∨ ∃ r, res = Ok (Some (new_Conversation (id, r))) ∧ table w !! id = Some r
          ∧ is_Some (pg_outcome E (queries w))
          ∧ (truthy uid = true → uid = Some (row_user_id r))).
Proof.
  unfold findById, bind, pgPool_query, run_select, findById_query.
  destruct (pg_outcome E (queries w)) as [t|] eqn:Hq; cbn.
  - destruct (table w !! id) as [r|] eqn:Hr; cbn.
    + destruct (truthy uid) eqn:Ht; cbn.
      * destruct uid as [u|]; [|discriminate]. cbn.
        destruct (String.eqb (row_user_id r) u) eqn:He; cbn;
          intros [= <- <-]; split; eauto 10.
        apply String.eqb_eq in He. subst u. eauto 10.
      * intros [= <- <-]. split; [done|]. right. right. exists r.
        repeat split; eauto. discriminate.
    + intros [= <- <-]. split; eauto.
  - intros [= <- <-]. split; eauto.
Qed.

Lemma addMessage_runs E this message w t r :
  pg_outcome E (queries w) = Some t →
  table w !! conv_id this = Some r →
  let m := message_at E 0 w (in_role message) (in_content message)
             (default [] (in_attachments message)) in
  let r' := with_messages r (conv_messages this ++ [m]) t in
  addMessage E this message w =
    ((push this m, Ok (new_Conversation (conv_id this, r'))),
     advance 1 (<[conv_id this := r']> (table w)) w).
Proof.
  intros Hq Hr m r'.
  unfold addMessage, fresh_uuid, read_clock, bind, pgPool_query, update_messages.
  cbn. rewrite Hq. cbn. rewrite Hr. reflexivity.
Qed.

Lemma addMessage_rejected E this message w :
  pg_outcome E (queries w) = None →
  let m := message_at E 0 w (in_role message) (in_content message)
             (default [] (in_attachments message)) in
  addMessage E this message w =
    ((push this m, Throw PgError), advance 1 (table w) w).
Proof.
  intros Hq m.
  unfold addMessage, fresh_uuid, read_clock, bind, pgPool_query.
  cbn. rewrite Hq. reflexivity.
Qed.

Lemma addMessage_missing_row E this message w t :
  pg_outcome E (queries w) = Some t →
  table w !! conv_id this = None →
  let m := message_at E 0 w (in_role message) (in_content message)
             (default [] (in_attachments message)) in
  addMessage E this message w =
    ((push this m, Throw TypeError), advance 1 (table w) w).
Proof.
  intros Hq Hr m.
  unfold addMessage, fresh_uuid, read_clock, bind, pgPool_query, update_messages.
  cbn. rewrite Hq. cbn. rewrite Hr. reflexivity.
Qed.

Lemma generateAIResponse_after_user E history m u :
  msg_role m = user →
  generateAIResponse E (history ++ [m]) u =
    match mockResponse E (msg_content m) (usr_id u) with
    | Some mock => Ok {| ai_content := ai_content mock;
                         ai_attachments := ai_attachments mock |}
    | None => Throw (AiError "AI service error")
    end.
Proof.
  intros Hm. unfold generateAIResponse. rewrite last_snoc, Hm.
  destruct (decide (user = user)); [reflexivity | congruence].
Qed.

(** ** A submission that passes the validators and finds its conversation *)

Lemma truthy_nonempty (s : string) : truthy (Some s) = true → s ≠ "".
Proof.
  unfold truthy. intros H ->. discriminate.
Qed.

Lemma post_message_passes E req w r :
  valid_submission E req w r →
  post_message E req w = post_message_handler E (sanitize_message req) w.
Proof.
  intros (Hid & Hv & _).
  unfold post_message, handleValidationErrors, validateUUIDParam.
  rewrite Hid, Hv. reflexivity.
Qed.

Ltac found_conversation Hvalid Hq0 :=
  let Hid := fresh "Hid" in
  let Hv := fresh "Hv" in
  let Hu := fresh "Hu" in
  let Hr := fresh "Hr" in
  let Ho := fresh "Ho" in
  rewrite (post_message_passes _ _ _ _ Hvalid);
  destruct Hvalid as (Hid & Hv & Hu & Hr & Ho);
  unfold post_message_handler; cbn [sanitize_message req_params_id req_user
    req_body_message req_body_attachments req_app_io];
  rewrite (findById_owned _ _ _ _ _ _ Hq0 Hr (truthy_nonempty _ Hu) Ho).

Lemma catch_aiError_runs E c w t r :
  pg_outcome E (queries w) = Some t →
  table w !! conv_id c = Some r →
  let fb := fallback_message E 0 w in
  let r' := with_messages r (conv_messages c ++ [fb]) t in
  catch_aiError E c w =
    (sent (new_Conversation (conv_id c, r')),
     advance 1 (<[conv_id c := r']> (table w)) w).
Proof.
  intros Hq Hr fb r'. unfold catch_aiError.
  erewrite addMessage_runs by eassumption. reflexivity.
Qed.

Lemma catch_aiError_rejected E c w :
  pg_outcome E (queries w) = None →
  catch_aiError E c w = (failed_to_send, advance 1 (table w) w).
Proof.
  intros Hq. unfold catch_aiError.
  rewrite addMessage_rejected by assumption. reflexivity.
Qed.

Lemma post_message_outcome E req w r :
  valid_submission E req w r →
  post_message E req w = submission_outcome E req w r.
Proof.
  intros Hvalid. unfold submission_outcome.
  destruct (pg_outcome E (queries w)) as [t0|] eqn:Hq0.
  2:{ rewrite (post_message_passes _ _ _ _ Hvalid).
      unfold post_message_handler. cbn [sanitize_message req_params_id req_user].
      rewrite findById_rejected by assumption.
      unfold world_after, count_query. cbn. rewrite app_nil_r. reflexivity. }
  found_conversation Hvalid Hq0.
  destruct (pg_outcome E (1 + queries w)) as [t1|] eqn:Hq1.
  2:{ rewrite addMessage_rejected by exact Hq1.
      unfold world_after, advance. cbn. rewrite app_nil_r. reflexivity. }
  erewrite addMessage_runs; [| exact Hq1 | cbn; exact Hr].
  cbn [conv_messages new_Conversation snd fst row_messages with_messages
       in_role in_content in_attachments default conv_id].
  rewrite generateAIResponse_after_user by reflexivity.
  cbn [message_at msg_content].
  destruct (mockResponse E _ _) as [ai|] eqn:Hai.
  - destruct (pg_outcome E (2 + queries w)) as [t2|] eqn:Hq2.
    + erewrite addMessage_runs; [| exact Hq2 | cbn; apply lookup_insert_eq].
      cbn. rewrite insert_insert_eq, <- app_assoc. cbn.
      unfold sent, returned, persisted, json, world_after, emit, message_received,
        user_message, assistant_message, message_at, with_messages. cbn.
      destruct (req_app_io req); cbn.
      * rewrite last_app. reflexivity.
      * rewrite app_nil_r. reflexivity.
    + rewrite addMessage_rejected by exact Hq2.
      destruct (pg_outcome E (3 + queries w)) as [t3|] eqn:Hq3.
      * erewrite catch_aiError_runs; [| exact Hq3 | cbn; apply lookup_insert_eq].
        cbn. rewrite insert_insert_eq, <- !app_assoc. cbn.
        unfold sent, returned, persisted, json, world_after,
          user_message, assistant_message, fallback_message, message_at,
          with_messages. cbn.
        rewrite app_nil_r. reflexivity.
      * rewrite catch_aiError_rejected by exact Hq3.
        unfold persisted, world_after, with_messages, user_message, message_at.
        cbn. rewrite app_nil_r. reflexivity.
  - destruct (pg_outcome E (2 + queries w)) as [t2|] eqn:Hq2.
    + erewrite catch_aiError_runs; [| exact Hq2 | cbn; apply lookup_insert_eq].
      cbn. rewrite insert_insert_eq, <- !app_assoc. cbn.
      unfold sent, returned, persisted, json, world_after,
        user_message, fallback_message, message_at, with_messages. cbn.
      rewrite app_nil_r. reflexivity.
    + rewrite catch_aiError_rejected by exact Hq2.
      unfold persisted, world_after, with_messages, user_message, message_at.
      cbn. rewrite app_nil_r. reflexivity.
Qed.

Lemma demo_hello_valid pg mock :
  valid_submission (Demo.env pg mock) Demo.hello Demo.world Demo.row.
Proof. repeat split. Qed.

(** ** C1: how many messages a submission adds *)

(** When the store runs every statement of the call, the returned
    conversation is the stored one followed by the user message and one
    assistant message: the reply, or the fallback if the responder threw. *)
Lemma submission_adds_two E req w r t0 t1 t2 :
  valid_submission E req w r →
  pg_outcome E (queries w) = Some t0 →
  pg_outcome E (1 + queries w) = Some t1 →
  pg_outcome E (2 + queries w) = Some t2 →
  ∃ c second,
    fst (post_message E req w) = sent c ∧
    conv_messages c = row_messages r ++ [user_message E req w; second] ∧
    msg_role second = assistant ∧
    length (conv_messages c) = length (row_messages r) + 2.
Proof.
  intros Hvalid Hq0 Hq1 Hq2.
  rewrite (post_message_outcome _ _ _ _ Hvalid). unfold submission_outcome.
  rewrite Hq0, Hq1, Hq2.
  destruct (mockResponse E _ _) as [ai|]; cbn;
    eexists; eexists; (split; [reflexivity|]); cbn;
    rewrite length_app; cbn; auto.
Qed.

(** When the responder replies, the UPDATE of the assistant append is
    rejected and the next one runs, the returned conversation is the stored
    one followed by three messages: the user message, the reply that the
    rejected call had pushed, and the fallback. *)
Lemma retried_append_adds_three E req w r t0 t1 t3 ai :
  valid_submission E req w r →
  pg_outcome E (queries w) = Some t0 →
  pg_outcome E (1 + queries w) = Some t1 →
  mockResponse E (trim (req_body_message req)) (usr_id (req_user req)) = Some ai →
  pg_outcome E (2 + queries w) = None →
  pg_outcome E (3 + queries w) = Some t3 →
  ∃ c,
    fst (post_message E req w) = sent c ∧
    conv_messages c
      = row_messages r ++ [user_message E req w; assistant_message E ai w;
                           fallback_message E 2 w] ∧
    length (conv_messages c) = length (row_messages r) + 3.
Proof.
  intros Hvalid Hq0 Hq1 Hai Hq2 Hq3.
  rewrite (post_message_outcome _ _ _ _ Hvalid). unfold submission_outcome.
  rewrite Hq0, Hq1, Hai, Hq2, Hq3.
  eexists. split; [reflexivity|]. split; [reflexivity|].
  cbn. rewrite length_app. reflexivity.
Qed.

(** C1 (the code departs from the claim).  The assistant append sits inside
    the [try] whose [catch] appends the fallback.  In the scenario the
    responder replies, the UPDATE of the assistant append is rejected and
    the one after it runs: the receiver already carries the pushed reply, the
    fallback is pushed after it, and the call answers 200 with a
    conversation three messages longer than the stored one (user, reply,
    fallback), which is also what the table then holds. *)
Theorem rejected_assistant_append_adds_three :
  let E := Demo.env Demo.store_hiccup (Some Demo.reply) in
  valid_submission E Demo.hello Demo.world Demo.row ∧
  ∃ c w',
    post_message E Demo.hello Demo.world = (sent c, w') ∧
    length (conv_messages c) = length (row_messages Demo.row) + 3 ∧
    msg_role <$> conv_messages c = [user; assistant; assistant] ∧
    msg_content <$> conv_messages c = ["Hello"; "Hi there"; fallback_content] ∧
    row_messages <$> (table w' !! Demo.c1) = Some (conv_messages c).
Proof.
  split; [apply demo_hello_valid|].
  eexists; eexists. split; [vm_compute; reflexivity|].
  vm_compute. repeat split.
Qed.

(** ** C2: the [message-received] emission *)

(** The path on which the reply is appended emits the event, to the room
    of the caller, with the conversation id and the reply (when the app
    carries an [io]). *)
Lemma reply_is_emitted E req w r t0 t1 t2 ai :
  valid_submission E req w r →
  req_app_io req = true →
  pg_outcome E (queries w) = Some t0 →
  pg_outcome E (1 + queries w) = Some t1 →
  mockResponse E (trim (req_body_message req)) (usr_id (req_user req)) = Some ai →
  pg_outcome E (2 + queries w) = Some t2 →
  emitted (snd (post_message E req w)) =
    emitted w ++ [message_received req (req_params_id req) (assistant_message E ai w)].
Proof.
  intros Hvalid Hio Hq0 Hq1 Hai Hq2.
  rewrite (post_message_outcome _ _ _ _ Hvalid). unfold submission_outcome.
  rewrite Hq0, Hq1, Hai, Hq2, Hio. reflexivity.
Qed.

(** Whenever the responder throws, the call emits nothing, whatever the
    store does. *)
Lemma fallback_is_not_emitted E req w r :
  valid_submission E req w r →
  mockResponse E (trim (req_body_message req)) (usr_id (req_user req)) = None →
  emitted (snd (post_message E req w)) = emitted w.
Proof.
  intros Hvalid Hai.
  rewrite (post_message_outcome _ _ _ _ Hvalid). unfold submission_outcome.
  rewrite Hai.
  destruct (pg_outcome E (queries w)); [|cbn; apply app_nil_r].
  destruct (pg_outcome E (1 + queries w)); [|cbn; apply app_nil_r].
  destruct (pg_outcome E (2 + queries w)); cbn; apply app_nil_r.
Qed.

(** C2 (the code departs from the claim).  The emission is written inside
    the [try], after the append of the reply; the [catch] block appends the
    fallback and emits nothing.  In the scenario the responder throws and the
    store runs every statement: the call answers 200 with the fallback as
    the last message of the conversation, and no event has been emitted. *)
Theorem fallback_append_emits_nothing :
  let E := Demo.env Demo.store_up None in
  valid_submission E Demo.hello Demo.world Demo.row ∧
  ∃ c w',
    post_message E Demo.hello Demo.world = (sent c, w') ∧
    last (conv_messages c) = Some (fallback_message E 1 Demo.world) ∧
    msg_role (fallback_message E 1 Demo.world) = assistant ∧
    emitted w' = [].
Proof.
  split; [apply demo_hello_valid|].
  eexists; eexists. split; [vm_compute; reflexivity|].
  vm_compute. repeat split.
Qed.

(** ** C3, C10: the reducer's [ADD_MESSAGE] *)

Lemma count_id_app id ms1 ms2 :
  count_id id (ms1 ++ ms2) = count_id id ms1 + count_id id ms2.
Proof. unfold count_id. rewrite filter_app, length_app. reflexivity. Qed.

Lemma count_id_self m : count_id (msg_id m) [m] = 1.
Proof.
  unfold count_id. rewrite filter_cons_True by reflexivity. reflexivity.
Qed.

(** On the open conversation the action appends its message, as it is. *)
Lemma ADD_MESSAGE_open state cid m c :
  currentConversation state = Some c →
  conv_id c = cid →
  chatReducer state (ADD_MESSAGE cid m) =
    {| conversations := conversations state;
       currentConversation := Some (push c m);
       isLoading := isLoading state; isTyping := isTyping state;
       error := error state |}.
Proof.
  intros Hc Hid. subst cid. cbn. rewrite Hc, String.eqb_refl. reflexivity.
Qed.

(** C3, counterexample.  "Demo" is open and empty; the same message arrives
    twice.  The open conversation then holds two messages with that id, not
    one. *)
Lemma ADD_MESSAGE_twice_keeps_two_copies :
  let m := ClientDemo.greeting in
  let s2 := chatReducer (chatReducer ClientDemo.open_demo (ADD_MESSAGE Demo.c1 m))
              (ADD_MESSAGE Demo.c1 m) in
  ∃ c, currentConversation s2 = Some c ∧
       conv_messages c = [m; m] ∧
       count_id (msg_id m) (conv_messages c) = 2 ∧
       count_id (msg_id m) (conv_messages c) ≠ 1.
Proof.
  eexists. split; [reflexivity|]. split; [reflexivity|].
  split; [reflexivity | discriminate].
Qed.

(** C3, as amended.  [ADD_MESSAGE] for the open conversation appends its
    message unconditionally: applied twice with the same message, it leaves
    the previous messages followed by two copies of it, so the number of
    messages with that id grows by two, and the rest of the state is as
    before. *)
Theorem ADD_MESSAGE_twice_appends_twice state cid m c :
  currentConversation state = Some c →
  conv_id c = cid →
  let s2 := chatReducer (chatReducer state (ADD_MESSAGE cid m)) (ADD_MESSAGE cid m) in
  ∃ c', currentConversation s2 = Some c' ∧
        conv_id c' = cid ∧
        conv_messages c' = conv_messages c ++ [m; m] ∧
        count_id (msg_id m) (conv_messages c')
          = count_id (msg_id m) (conv_messages c) + 2 ∧
        conversations s2 = conversations state.
Proof.
  intros Hc Hid s2. subst s2.
  rewrite (ADD_MESSAGE_open state cid m c Hc Hid).
  erewrite ADD_MESSAGE_open; [| reflexivity | exact Hid].
  eexists. split; [reflexivity|]. cbn [push conv_id conv_messages conversations].
  rewrite <- app_assoc.
  repeat split; try assumption.
  rewrite !count_id_app, count_id_self. lia.
Qed.

Lemma ADD_MESSAGE_twice_appends_twice_witness :
  currentConversation ClientDemo.open_demo = Some ClientDemo.demo ∧
  conv_id ClientDemo.demo = Demo.c1 ∧
  ∃ c', currentConversation
          (chatReducer (chatReducer ClientDemo.open_demo
                          (ADD_MESSAGE Demo.c1 ClientDemo.greeting))
             (ADD_MESSAGE Demo.c1 ClientDemo.greeting)) = Some c' ∧
        conv_id c' = Demo.c1 ∧
        conv_messages c' = conv_messages ClientDemo.demo
                             ++ [ClientDemo.greeting; ClientDemo.greeting] ∧
        count_id (msg_id ClientDemo.greeting) (conv_messages c')
          = count_id (msg_id ClientDemo.greeting) (conv_messages ClientDemo.demo) + 2 ∧
        conversations
          (chatReducer (chatReducer ClientDemo.open_demo
                          (ADD_MESSAGE Demo.c1 ClientDemo.greeting))
             (ADD_MESSAGE Demo.c1 ClientDemo.greeting))
          = conversations ClientDemo.open_demo.
Proof.
  split; [reflexivity|]. split; [reflexivity|].
  apply (ADD_MESSAGE_twice_appends_twice ClientDemo.open_demo Demo.c1
           ClientDemo.greeting ClientDemo.demo); reflexivity.
Defined.

(** C10.  When no conversation is open, or the open one has another id than
    the payload's [conversationId], [ADD_MESSAGE] returns the state it was
    given; and in no state does it change the conversation list, so the
    [messageCount] and [lastMessage] of the summaries stay as they are. *)
Theorem ADD_MESSAGE_elsewhere_is_identity state cid m :
  (∀ c, currentConversation state = Some c → conv_id c ≠ cid) →
  chatReducer state (ADD_MESSAGE cid m) = state ∧
  ∀ state' cid' m',
    conversations (chatReducer state' (ADD_MESSAGE cid' m')) = conversations state'.
Proof.
  intros Hother. split.
  - cbn. destruct (currentConversation state) as [c|] eqn:Hc; [|reflexivity].
    destruct (String.eqb_spec (conv_id c) cid) as [Heq|Hne]; [|reflexivity].
    exfalso. exact (Hother c eq_refl Heq).
  - intros state' cid' m'. cbn.
    destruct (currentConversation state') as [c|]; [|reflexivity].
    destruct (String.eqb (conv_id c) cid'); reflexivity.
Qed.

Lemma ADD_MESSAGE_elsewhere_is_identity_witness :
  (∀ c, currentConversation ClientDemo.open_demo = Some c → conv_id c ≠ Demo.c2) ∧
  chatReducer ClientDemo.open_demo (ADD_MESSAGE Demo.c2 ClientDemo.greeting)
    = ClientDemo.open_demo ∧
  ∀ state' cid' m',
    conversations (chatReducer state' (ADD_MESSAGE cid' m')) = conversations state'.
Proof.
  assert (H : ∀ c, currentConversation ClientDemo.open_demo = Some c → conv_id c ≠ Demo.c2).
  { intros c [= <-]. discriminate. }
  split; [exact H|].
  exact (ADD_MESSAGE_elsewhere_is_identity ClientDemo.open_demo Demo.c2
           ClientDemo.greeting H).
Defined.

(** ** C4, C9: ownership *)

(** Whatever the request holds and whatever the store answers, a
    conversation of somebody else is never sent back: the response is one of
    the error responses, and the table and the emissions stay as they were. *)
Lemma foreign_conversation_is_never_sent E req w r :
  truthy (Some (usr_id (req_user req))) = true →
  table w !! req_params_id req = Some r →
  row_user_id r ≠ usr_id (req_user req) →
  ∃ resp w',
    post_message E req w = (resp, w') ∧
    (∀ text c, body resp ≠ conversation_body text c) ∧
    (status resp = 400 ∨ status resp = 404 ∨ status resp = 500) ∧
    table w' = table w ∧
    emitted w' = emitted w.
Proof.
  intros Hu Hr Ho.
  unfold post_message, handleValidationErrors.
  destruct (validateUUIDParam E "id" (req_params_id req)).
  2:{ eexists; eexists. split; [reflexivity|]. cbn. repeat split; auto. }
  destruct (validateChatMessage E req).
  2:{ eexists; eexists. split; [reflexivity|]. cbn. repeat split; auto. }
  unfold post_message_handler. cbn [sanitize_message req_params_id req_user].
  destruct (findById E (req_params_id req) (Some (usr_id (req_user req))) w)
    as [res w1] eqn:Hfind.
  apply findById_inv in Hfind as [-> Hres].
  destruct Hres as [[-> _] | [[-> _] | (r' & -> & Hr' & _ & Hscope)]].
  - eexists; eexists. split; [reflexivity|]. cbn. repeat split; auto.
  - eexists; eexists. split; [reflexivity|]. cbn. repeat split; auto.
  - exfalso. specialize (Hscope Hu). rewrite Hr in Hr'.
    injection Hr' as <-. injection Hscope as Heq. congruence.
Qed.

(** C4.  The conversation exists and belongs to somebody else; the request
    passes the validators and the SELECT runs.  The route answers 404 with
    the fixed body [{ error: 'Conversation not found' }], which holds nothing
    of the conversation, and leaves the table and the emissions as they
    were: one query was issued, no append attempted. *)
Theorem foreign_conversation_is_not_found E req w r t :
  isUUID E (req_params_id req) = true →
  validateChatMessage E req = [] →
  truthy (Some (usr_id (req_user req))) = true →
  table w !! req_params_id req = Some r →
  row_user_id r ≠ usr_id (req_user req) →
  pg_outcome E (queries w) = Some t →
  ∃ w',
    post_message E req w
      = (status_json 404 (error_body "Conversation not found"), w') ∧
    table w' = table w ∧
    emitted w' = emitted w ∧
    queries w' = S (queries w) ∧
    clock_reads w' = clock_reads w.
Proof.
  intros Hid Hv Hu Hr Ho Hq.
  exists (count_query w).
  unfold post_message, handleValidationErrors, validateUUIDParam.
  rewrite Hid, Hv. unfold post_message_handler.
  cbn [sanitize_message req_params_id req_user].
  rewrite (findById_foreign _ _ _ _ _ _ Hq Hr (truthy_nonempty _ Hu) Ho).
  repeat split.
Qed.

Lemma foreign_conversation_is_not_found_witness :
  let E := Demo.env Demo.store_up (Some Demo.reply) in
  let req := Demo.request Demo.bob "Hello" in
  isUUID E (req_params_id req) = true ∧
  validateChatMessage E req = [] ∧
  truthy (Some (usr_id (req_user req))) = true ∧
  table Demo.world !! req_params_id req = Some Demo.row ∧
  row_user_id Demo.row ≠ usr_id (req_user req) ∧
  pg_outcome E (queries Demo.world) = Some 1000%Z ∧
  ∃ w',
    post_message E req Demo.world
      = (status_json 404 (error_body "Conversation not found"), w') ∧
    table w' = table Demo.world ∧
    emitted w' = emitted Demo.world ∧
    queries w' = S (queries Demo.world) ∧
    clock_reads w' = clock_reads Demo.world.
Proof.
  assert (Ho : row_user_id Demo.row ≠ usr_id Demo.bob) by discriminate.
  repeat (split; [first [reflexivity | exact Ho] |]).
  exact (foreign_conversation_is_not_found
           (Demo.env Demo.store_up (Some Demo.reply))
           (Demo.request Demo.bob "Hello") Demo.world Demo.row 1000%Z
           eq_refl eq_refl eq_refl eq_refl Ho eq_refl).
Defined.



(** The test under [if (userId)] is truthiness: an empty owner id is
    treated like a missing one. *)
Lemma findById_empty_owner_unscoped id :
  sel_user_id (findById_query id (Some "")) = None.
Proof. reflexivity. Qed.

(** ** C5: the responder throws *)

(** C5.  A valid submission, a responder that throws on the history it is
    given, and a store that runs the three statements of the call.  The
    route answers 200 with the updated conversation: the stored messages,
    the user message, and an assistant message whose content is the fixed
    apology and whose attachment list is empty; the table holds the same
    sequence. *)
Theorem generator_failure_appends_fallback E req w r t0 t1 t2 e :
  valid_submission E req w r →
  generateAIResponse E (row_messages r ++ [user_message E req w]) (req_user req)
    = Throw e →
  pg_outcome E (queries w) = Some t0 →
  pg_outcome E (1 + queries w) = Some t1 →
  pg_outcome E (2 + queries w) = Some t2 →
  ∃ c w' fb,
    post_message E req w = (sent c, w') ∧
    status (sent c) = 200 ∧
    conv_messages c = row_messages r ++ [user_message E req w; fb] ∧
    msg_role fb = assistant ∧
    msg_content fb = fallback_content ∧
    msg_attachments fb = [] ∧
    row_messages <$> (table w' !! req_params_id req) = Some (conv_messages c).
Proof.
  intros Hvalid Hgen Hq0 Hq1 Hq2.
  rewrite generateAIResponse_after_user in Hgen by reflexivity.
  cbn [user_message message_at msg_content] in Hgen.
  destruct (mockResponse E _ _) as [ai|] eqn:Hai; [discriminate|].
  rewrite (post_message_outcome _ _ _ _ Hvalid). unfold submission_outcome.
  rewrite Hq0, Hq1, Hai, Hq2.
  eexists; eexists; exists (fallback_message E 1 w).
  split; [reflexivity|]. repeat split.
  cbn. unfold persisted. rewrite lookup_insert_eq. reflexivity.
Qed.

Lemma generator_failure_appends_fallback_witness :
  let E := Demo.env Demo.store_up None in
  valid_submission E Demo.hello Demo.world Demo.row ∧
  generateAIResponse E (row_messages Demo.row ++ [user_message E Demo.hello Demo.world])
      (req_user Demo.hello)
    = Throw (AiError "AI service error") ∧
  pg_outcome E (queries Demo.world) = Some 1000%Z ∧
  pg_outcome E (1 + queries Demo.world) = Some 1001%Z ∧
  pg_outcome E (2 + queries Demo.world) = Some 1002%Z ∧
  ∃ c w' fb,
    post_message E Demo.hello Demo.world = (sent c, w') ∧
    status (sent c) = 200 ∧
    conv_messages c = row_messages Demo.row ++ [user_message E Demo.hello Demo.world; fb] ∧
    msg_role fb = assistant ∧
    msg_content fb = fallback_content ∧
    msg_attachments fb = [] ∧
    row_messages <$> (table w' !! req_params_id Demo.hello) = Some (conv_messages c).
Proof.
  split; [apply demo_hello_valid|].
  repeat (split; [reflexivity|]).
  exact (generator_failure_appends_fallback (Demo.env Demo.store_up None)
           Demo.hello Demo.world Demo.row 1000%Z 1001%Z 1002%Z
           (AiError "AI service error")
           (demo_hello_valid _ _) eq_refl eq_refl eq_refl eq_refl).
Defined.

(** ** C6: the text validator *)

Lemma isLength_false min max s :
  ((str_length s < min)%Z ∨ (max < str_length s)%Z) →
  isLength min max s = false.
Proof.
  unfold isLength. intros [H|H].
  - apply andb_false_iff. left. apply Z.leb_gt. exact H.
  - apply andb_false_iff. right. apply Z.leb_gt. exact H.
Qed.

(** C6, counterexample.  The chain is [trim()] then [isLength], so the
    bound is on the trimmed text.  A text of 10001 characters whose last
    character is a space passes: the route answers 200 and the conversation,
    empty before, holds two messages, the first with the 10000 trimmed
    characters as content. *)
Lemma padded_text_of_10001_characters_is_accepted :
  let E := Demo.env Demo.store_up (Some Demo.reply) in
  let req := Demo.request Demo.alice padded_text in
  let result := post_message E req Demo.world in
  str_length (req_body_message req) = 10001%Z ∧
  (10000 < str_length (req_body_message req))%Z ∧
  status (fst result) = 200 ∧
  row_messages <$> (table Demo.world !! Demo.c1) = Some [] ∧
  (length ∘ row_messages) <$> (table (snd result) !! Demo.c1) = Some 2 ∧
  (fun r => str_length ∘ msg_content <$> row_messages r)
    <$> (table (snd result) !! Demo.c1) = Some [10000%Z; 8%Z] ∧
  queries (snd result) = 3.
Proof.
  cbv zeta. repeat split; vm_compute; congruence.
Qed.

(** C6, as amended.  A request whose text, after trimming, is empty or
    longer than 10000 characters is answered 400 "Validation failed" by the
    validators; the handler does not run, so the world is the one before the
    request: no query was issued, and the conversation's messages and
    timestamps are as they were. *)
Theorem invalid_trimmed_text_is_rejected E req w :
  (trim (req_body_message req) = ""
   ∨ (10000 < str_length (trim (req_body_message req)))%Z) →
  ∃ details,
    details ≠ [] ∧
    post_message E req w
      = (status_json 400 (validation_body "Validation failed" details), w).
Proof.
  intros Htext.
  assert (Hlen : isLength 1 10000 (trim (req_body_message req)) = false).
  { apply isLength_false. destruct Htext as [-> | H]; [left; reflexivity | right; exact H]. }
  unfold post_message, handleValidationErrors.
  destruct (validateUUIDParam E "id" (req_params_id req)) as [|e es] eqn:Hid.
  - unfold validateChatMessage. rewrite Hlen. cbn [app].
    eexists. split; [|reflexivity]. discriminate.
  - eexists. split; [|reflexivity]. discriminate.
Qed.

Lemma invalid_trimmed_text_is_rejected_witness :
  let E := Demo.env Demo.store_up (Some Demo.reply) in
  let req := Demo.request Demo.alice "   " in
  (trim (req_body_message req) = ""
   ∨ (10000 < str_length (trim (req_body_message req)))%Z) ∧
  ∃ details,
    details ≠ [] ∧
    post_message E req Demo.world
      = (status_json 400 (validation_body "Validation failed" details), Demo.world).
Proof.
  split; [left; reflexivity|].
  exact (invalid_trimmed_text_is_rejected
           (Demo.env Demo.store_up (Some Demo.reply))
           (Demo.request Demo.alice "   ") Demo.world (or_introl eq_refl)).
Defined.

(** ** C7: [updatedAt] on the server, the summary list on the client *)

(** What PUT [/conversations/:id] by the owner does when its two statements
    run, by what the column takes of the title. *)
Lemma rename_outcome E req w r t0 t1 :
  isUUID E (req_params_id req) = true →
  truthy (Some (usr_id (req_user req))) = true →
  table w !! req_params_id req = Some r →
  row_user_id r = usr_id (req_user req) →
  pg_outcome E (queries w) = Some t0 →
  pg_outcome E (1 + queries w) = Some t1 →
  put_conversation E req w =
    match varchar 255 (req_body_title req) with
    | Some stored =>
        (updated (new_Conversation (req_params_id req, with_title r stored t1)),
         world_after (<[req_params_id req := with_title r stored t1]> (table w))
           2 0 [] w)
    | None =>
        (status_json 500 (error_body "Failed to update conversation"),
         world_after (table w) 2 0 [] w)
    end.
Proof.
  intros Hid Hu Hr Ho Hq0 Hq1.
  unfold put_conversation, handleValidationErrors, validateUUIDParam.
  rewrite Hid. unfold put_conversation_handler.
  rewrite (findById_owned _ _ _ _ _ _ Hq0 Hr (truthy_nonempty _ Hu) Ho).
  destruct (varchar 255 (req_body_title req)) as [stored|] eqn:Hfit.
  - rewrite (updateTitle_runs E _ _ stored _ t1 r); [|exact Hq1|exact Hr|exact Hfit].
    unfold world_after, updated. cbn. rewrite app_nil_r. reflexivity.
  - rewrite (updateTitle_refused E _ _ _ t1 r); [|exact Hq1|exact Hr|exact Hfit].
    unfold world_after. cbn. rewrite app_nil_r. reflexivity.
Qed.



Lemma replace_in_place_lookup payload l i conv :
  l !! i = Some conv →
  replace_in_place payload l !! i
    = Some (if String.eqb (sum_id conv) (sum_id payload) then payload else conv).
Proof.
  intros Hi. unfold replace_in_place.
  change (map ?f l) with (f <$> l). rewrite list_lookup_fmap, Hi. reflexivity.
Qed.

Lemma replace_in_place_absent payload l :
  sum_id payload ∉ (sum_id <$> l) → replace_in_place payload l = l.
Proof.
  unfold replace_in_place. induction l as [|conv l IH]; [reflexivity|].
  cbn. intros Hnot. apply not_elem_of_cons in Hnot as [Hne Hnot].
  rewrite (IH Hnot).
  destruct (String.eqb_spec (sum_id conv) (sum_id payload)); congruence.
Qed.

Lemma sendMessage_success_list state c :
  conversations (dispatch_all state (sendMessage_success c))
    = replace_in_place (summary_payload c) (conversations state).
Proof. reflexivity. Qed.







Lemma demo_submit_response :
  post_message ListDemo.E Demo.hello Demo.world
    = (sent ListDemo.answered, ListDemo.after_answer).
Proof. vm_compute. reflexivity. Qed.




(** ** C8: order and timestamps of the messages of one call *)

Lemma timestamps_sorted_lookup ms (i j : nat) a b :
  timestamps_sorted ms →
  (i ≤ j)%nat → ms !! i = Some a → ms !! j = Some b →
  (msg_timestamp a ≤ msg_timestamp b)%Z.
Proof.
  unfold timestamps_sorted. revert i j.
  induction ms as [|m ms IH]; intros i j Hs Hij Hi Hj; [discriminate|].
  cbn in Hs. apply StronglySorted_inv in Hs as [Hs Hall].
  destruct i as [|i], j as [|j]; cbn in Hi, Hj.
  - injection Hi as <-. injection Hj as <-. lia.
  - injection Hi as <-.
    rewrite Forall_forall in Hall. apply Hall.
    apply list_elem_of_fmap. exists b. split; [reflexivity|].
    eapply list_elem_of_lookup_2; eassumption.
  - lia.
  - apply (IH i j); auto. lia.
Qed.

(** Appending messages that are sorted among themselves and not earlier
    than [t] to a sorted sequence that is not after [t]. *)
Lemma timestamps_sorted_app t old added :
  timestamps_sorted old → not_after t old →
  timestamps_sorted added →
  Forall (fun m => (t ≤ msg_timestamp m)%Z) added →
  timestamps_sorted (old ++ added).
Proof.
  unfold timestamps_sorted, not_after. intros Hold Hbound Hadded Hfrom.
  rewrite fmap_app. apply StronglySorted_app_2; auto.
  intros x1 x2 H1 H2.
  apply list_elem_of_fmap in H1 as (m1 & -> & H1).
  apply list_elem_of_fmap in H2 as (m2 & -> & H2).
  rewrite Forall_forall in Hbound, Hfrom.
  specialize (Hbound m1 H1). specialize (Hfrom m2 H2). lia.
Qed.

Lemma not_after_app t old added :
  not_after t (old ++ added) ↔ not_after t old ∧ not_after t added.
Proof. unfold not_after. apply Forall_app. Qed.

Lemma not_after_mono t t' ms : (t ≤ t')%Z → not_after t ms → not_after t' ms.
Proof.
  unfold not_after. intros Ht Hms.
  eapply Forall_impl; [exact Hms|]. intros m Hm. cbn in Hm. lia.
Qed.

(** The messages one call builds are stamped by consecutive clock reads. *)
Lemma built_in_order E w (k1 k2 : nat) role1 c1 a1 role2 c2 a2 :
  clock_monotone E → (k1 ≤ k2)%nat →
  (msg_timestamp (message_at E k1 w role1 c1 a1)
   ≤ msg_timestamp (message_at E k2 w role2 c2 a2))%Z.
Proof. intros Hmono Hk. cbn. apply Hmono. lia. Qed.

(** What a successful response holds, in each of the three ways the route
    reaches one. *)
Lemma sent_conversation_cases E req w r c w' :
  valid_submission E req w r →
  post_message E req w = (sent c, w') →
  ∃ added t n,
    c = returned req r added t ∧
    table w' = persisted req r added t w ∧
    clock_reads w' = n + clock_reads w ∧
    (length added ≤ n)%nat ∧
    ((∃ ai, added = [user_message E req w; assistant_message E ai w])
     ∨ added = [user_message E req w; fallback_message E 1 w]
     ∨ (∃ ai, added = [user_message E req w; assistant_message E ai w;
                       fallback_message E 2 w])).
Proof.
  intros Hvalid. rewrite (post_message_outcome _ _ _ _ Hvalid).
  unfold submission_outcome.
  destruct (pg_outcome E (queries w)); [|discriminate].
  destruct (pg_outcome E (1 + queries w)); [|discriminate].
  destruct (mockResponse E _ _) as [ai|].
  - destruct (pg_outcome E (2 + queries w)) as [t2|].
    + intros [= <- <-]. eexists; exists t2, 2.
      repeat split; [cbn; lia | left; eauto].
    + destruct (pg_outcome E (3 + queries w)) as [t3|]; [|discriminate].
      intros [= <- <-]. eexists; exists t3, 3.
      repeat split; [cbn; lia | right; right; eauto].
  - destruct (pg_outcome E (2 + queries w)) as [t2|]; [|discriminate].
    intros [= <- <-]. eexists; exists t2, 2.
    repeat split; [cbn; lia | right; left; eauto].
Qed.

(** ** The order of timestamps as an invariant of the table *)

Lemma sequence_in_order_later E w w' ms :
  clock_monotone E →
  (clock_reads w ≤ clock_reads w')%nat →
  sequence_in_order E w ms → sequence_in_order E w' ms.
Proof.
  intros Hmono Hle [Hs Hb]. split; [exact Hs|].
  eapply not_after_mono; [|exact Hb]. apply Hmono. exact Hle.
Qed.

Lemma table_in_order_later E w w' :
  clock_monotone E →
  table w' = table w →
  (clock_reads w ≤ clock_reads w')%nat →
  table_in_order E w → table_in_order E w'.
Proof.
  intros Hmono Htbl Hle Hw id r Hr. rewrite Htbl in Hr.
  eapply sequence_in_order_later; eauto.
Qed.

(** Pushing the message built at [w] keeps a sequence in order. *)
Lemma sequence_in_order_push E w w' ms role content atts :
  clock_monotone E →
  (S (clock_reads w) ≤ clock_reads w')%nat →
  sequence_in_order E w ms →
  sequence_in_order E w' (ms ++ [message_at E 0 w role content atts]).
Proof.
  intros Hmono Hle [Hs Hb]. split.
  - apply (timestamps_sorted_app (Date_now E (clock_reads w))); auto.
    + unfold timestamps_sorted. cbn. repeat constructor.
    + repeat constructor. cbn. lia.
  - apply not_after_app. split.
    + eapply not_after_mono; [|exact Hb]. apply Hmono. lia.
    + repeat constructor. cbn. apply Hmono. lia.
Qed.

(** [addMessage] keeps the table in order, and leaves its receiver and the
    conversation it returns in order, whether the UPDATE runs or not. *)
Lemma addMessage_in_order E this message w :
  clock_monotone E →
  table_in_order E w →
  sequence_in_order E w (conv_messages this) →
  let result := addMessage E this message w in
  table_in_order E (snd result) ∧
  sequence_in_order E (snd result) (conv_messages (fst (fst result))) ∧
  ∀ c, snd (fst result) = Ok c →
       sequence_in_order E (snd result) (conv_messages c).
Proof.
  intros Hmono Hw Hthis result. subst result.
  destruct (pg_outcome E (queries w)) as [t|] eqn:Hq.
  - destruct (table w !! conv_id this) as [r|] eqn:Hr.
    + rewrite (addMessage_runs _ _ _ _ _ _ Hq Hr). cbn [fst snd].
      assert (Hnew : sequence_in_order E (advance 1 (table w) w)
                       (conv_messages this ++
                        [message_at E 0 w (in_role message) (in_content message)
                           (default [] (in_attachments message))])).
      { apply sequence_in_order_push; auto. }
      split; [|split].
      * intros id r' Hr'. cbn in Hr'.
        destruct (decide (conv_id this = id)) as [<-|Hne].
        -- rewrite lookup_insert_eq in Hr'. injection Hr' as <-. exact Hnew.
        -- rewrite lookup_insert_ne in Hr' by exact Hne.
           eapply sequence_in_order_later; [exact Hmono | | exact (Hw id r' Hr')].
           cbn. lia.
      * exact Hnew.
      * intros c [= <-]. exact Hnew.
    + rewrite (addMessage_missing_row _ _ _ _ _ Hq Hr). cbn [fst snd].
      split; [|split].
      * apply (table_in_order_later E w);
          [exact Hmono | reflexivity | cbn; lia | exact Hw].
      * apply sequence_in_order_push; auto.
      * intros c [=].
  - rewrite (addMessage_rejected _ _ _ _ Hq). cbn [fst snd].
    split; [|split].
    + apply (table_in_order_later E w);
        [exact Hmono | reflexivity | cbn; lia | exact Hw].
    + apply sequence_in_order_push; auto.
    + intros c [=].
Qed.

Lemma findById_in_order E id uid w :
  table_in_order E w →
  let result := findById E id uid w in
  table_in_order E (snd result) ∧
  ∀ c, fst result = Ok (Some c) →
       sequence_in_order E (snd result) (conv_messages c).
Proof.
  intros Hw result. subst result.
  destruct (findById E id uid w) as [res w'] eqn:Hfind.
  apply findById_inv in Hfind as [-> Hres]. cbn [fst snd]. split.
  - exact Hw.
  - intros c ->. destruct Hres as [[[=] _] | [[[=] _] | (r & [= ->] & Hr & _)]].
    exact (Hw id r Hr).
Qed.

Lemma catch_aiError_in_order E c w :
  clock_monotone E →
  table_in_order E w →
  sequence_in_order E w (conv_messages c) →
  table_in_order E (snd (catch_aiError E c w)).
Proof.
  intros Hmono Hw Hc. unfold catch_aiError.
  pose proof (addMessage_in_order E c
                {| in_role := assistant; in_content := fallback_content;
                   in_attachments := Some [] |} w Hmono Hw Hc) as (Ht & _ & _).
  cbv zeta in Ht.
  destruct (addMessage E c _ w) as [[this' [c'|e]] w']; exact Ht.
Qed.

(** Every request to the route, accepted or not, answered or failed, leaves
    the table in order. *)
Lemma post_message_in_order E req w :
  clock_monotone E →
  table_in_order E w →
  table_in_order E (snd (post_message E req w)).
Proof.
  intros Hmono Hw. unfold post_message, handleValidationErrors.
  destruct (validateUUIDParam E "id" (req_params_id req)); [|exact Hw].
  destruct (validateChatMessage E req); [|exact Hw].
  unfold post_message_handler.
  pose proof (findById_in_order E (req_params_id (sanitize_message req))
                (Some (usr_id (req_user (sanitize_message req)))) w Hw)
    as [Hw1 Hc1]. cbv zeta in Hw1, Hc1.
  destruct (findById E _ _ w) as [[[c|]|e] w1]; cbn [fst snd] in *;
    [|exact Hw1|exact Hw1].
  specialize (Hc1 c eq_refl).
  match goal with
  | |- context [addMessage E c ?m w1] =>
      pose proof (addMessage_in_order E c m w1 Hmono Hw1 Hc1) as (Hw2 & _ & Hc2);
      cbv zeta in Hw2, Hc2;
      destruct (addMessage E c m w1) as [[this1 [c2|e]] w2]
  end; cbn [fst snd] in *; [|exact Hw2].
  specialize (Hc2 c2 eq_refl).
  destruct (generateAIResponse E (conv_messages c2) _) as [ai|e].
  - match goal with
    | |- context [addMessage E c2 ?m w2] =>
        pose proof (addMessage_in_order E c2 m w2 Hmono Hw2 Hc2) as (Hw3 & Hr3 & _);
        cbv zeta in Hw3, Hr3;
        destruct (addMessage E c2 m w2) as [[this2 [c3|e]] w3]
    end; cbn [fst snd] in *.
    + destruct (req_app_io _); exact Hw3.
    + apply catch_aiError_in_order; assumption.
  - apply catch_aiError_in_order; assumption.
Qed.

(** The messages of an answered call: after the stored ones comes the user
    message, then the assistant messages of the call, none stamped earlier
    than the user message; an ordered stored sequence stays ordered. *)
Lemma answered_submission_order E req w r c w' :
  clock_monotone E →
  valid_submission E req w r →
  post_message E req w = (sent c, w') →
  timestamps_sorted (row_messages r) →
  not_after (Date_now E (clock_reads w)) (row_messages r) →
  ∃ um rest,
    conv_messages c = row_messages r ++ um :: rest ∧
    row_messages <$> (table w' !! req_params_id req) = Some (conv_messages c) ∧
    um = user_message E req w ∧
    msg_role um = user ∧
    rest ≠ [] ∧
    Forall (fun m => msg_role m = assistant
                     ∧ (msg_timestamp um ≤ msg_timestamp m)%Z) rest ∧
    timestamps_sorted (conv_messages c) ∧
    not_after (Date_now E (clock_reads w')) (conv_messages c).
Proof.
  intros Hmono Hvalid Hsent Hsorted Hbound.
  destruct (sent_conversation_cases _ _ _ _ _ _ Hvalid Hsent)
    as (added & t & n & -> & Htbl & Hclock & Hn & Hcases).
  assert (Hstamp : ∀ k role content atts,
            (Date_now E (clock_reads w)
             ≤ msg_timestamp (message_at E k w role content atts))%Z).
  { intros. cbn. apply Hmono. lia. }
  assert (Hlate : ∀ k role content atts, k < n →
            (msg_timestamp (message_at E k w role content atts)
             ≤ Date_now E (clock_reads w'))%Z).
  { intros. cbn. rewrite Hclock. apply Hmono. lia. }
  assert (Hold : not_after (Date_now E (clock_reads w')) (row_messages r)).
  { eapply not_after_mono; [|exact Hbound]. rewrite Hclock. apply Hmono. lia. }
  rewrite Htbl. unfold persisted, returned. rewrite lookup_insert_eq.
  cbn [new_Conversation conv_messages snd with_messages row_messages fmap option_fmap option_map].
  exists (user_message E req w).
  destruct Hcases as [[ai ->] | [-> | [ai ->]]]; cbn in Hn.
  - exists [assistant_message E ai w]. repeat split; try discriminate.
    + repeat constructor. apply built_in_order; [assumption | lia].
    + apply (timestamps_sorted_app (Date_now E (clock_reads w))); auto.
      * unfold timestamps_sorted. cbn [fmap list_fmap]. repeat constructor.
        apply Hmono. lia.
      * repeat constructor; apply Hstamp.
    + apply not_after_app. split; [exact Hold|].
      repeat constructor; apply Hlate; lia.
  - exists [fallback_message E 1 w]. repeat split; try discriminate.
    + repeat constructor. apply built_in_order; [assumption | lia].
    + apply (timestamps_sorted_app (Date_now E (clock_reads w))); auto.
      * unfold timestamps_sorted. cbn [fmap list_fmap]. repeat constructor.
        apply Hmono. lia.
      * repeat constructor; apply Hstamp.
    + apply not_after_app. split; [exact Hold|].
      repeat constructor; apply Hlate; lia.
  - exists [assistant_message E ai w; fallback_message E 2 w].
    repeat split; try discriminate.
    + repeat constructor; apply built_in_order; first [assumption | lia].
    + apply (timestamps_sorted_app (Date_now E (clock_reads w))); auto.
      * unfold timestamps_sorted. cbn [fmap list_fmap].
        repeat constructor; apply Hmono; lia.
      * repeat constructor; apply Hstamp.
    + apply not_after_app. split; [exact Hold|].
      repeat constructor; apply Hlate; lia.
Qed.

Lemma demo_clock_monotone pg mock : clock_monotone (Demo.env pg mock).
Proof. intros i j Hij. cbn. lia. Qed.

(** A rename leaves every message sequence as it is. *)
Lemma put_conversation_in_order E req w :
  table_in_order E w →
  table_in_order E (snd (put_conversation E req w)).
Proof.
  intros Hw. unfold put_conversation, handleValidationErrors.
  destruct (validateUUIDParam E "id" (req_params_id req)); [|exact Hw].
  unfold put_conversation_handler.
  destruct (findById E (req_params_id req) (Some (usr_id (req_user req))) w)
    as [res w1] eqn:Hfind.
  apply findById_inv in Hfind as [-> _].
  destruct res as [[c|]|e]; [|exact Hw|exact Hw].
  unfold updateTitle, bind, pgPool_query, update_title. cbn.
  destruct (pg_outcome E (S (queries w))) as [t|]; [|exact Hw].
  destruct (table w !! conv_id c) as [r|] eqn:Hr; cbn; [|exact Hw].
  destruct (varchar 255 (req_body_title req)) as [stored|]; cbn; [|exact Hw].
  intros id r' Hr'. cbn in Hr'.
  destruct (decide (conv_id c = id)) as [<-|Hne].
  - rewrite lookup_insert_eq in Hr'. injection Hr' as <-. exact (Hw _ _ Hr).
  - rewrite lookup_insert_ne in Hr' by exact Hne. exact (Hw _ _ Hr').
Qed.

(** C8.  For a valid submission answered with a conversation, under a clock
    that does not run backwards and on a table whose conversations are in
    order: the returned sequence, which is the persisted one, is the stored
    sequence, then the user message, then the assistant messages of the call
    (at least one); each of these is stamped no earlier than the user
    message; the timestamps of the whole sequence are non-decreasing, and
    the table is in order again. *)
Theorem user_message_precedes_assistant_message E req w r c w' :
  clock_monotone E →
  valid_submission E req w r →
  table_in_order E w →
  post_message E req w = (sent c, w') →
  ∃ um rest,
    conv_messages c = row_messages r ++ um :: rest ∧
    row_messages <$> (table w' !! req_params_id req) = Some (conv_messages c) ∧
    um = user_message E req w ∧
    msg_role um = user ∧
    rest ≠ [] ∧
    Forall (fun m => msg_role m = assistant
                     ∧ (msg_timestamp um ≤ msg_timestamp m)%Z) rest ∧
    timestamps_sorted (conv_messages c) ∧
    table_in_order E w'.
Proof.
  intros Hmono Hvalid Hw Hsent.
  assert (Hr : table w !! req_params_id req = Some r) by apply Hvalid.
  destruct (Hw _ _ Hr) as [Hsorted Hbound].
  destruct (answered_submission_order _ _ _ _ _ _ Hmono Hvalid Hsent Hsorted Hbound)
    as (um & rest & Hc & Htbl & Hum & Hrole & Hrest & Hall & Hs & _).
  exists um, rest.
  do 7 (split; [assumption|]).
  pose proof (post_message_in_order E req w Hmono Hw) as Hw'.
  rewrite Hsent in Hw'. exact Hw'.
Qed.

Lemma demo_world_in_order pg mock : table_in_order (Demo.env pg mock) Demo.world.
Proof.
  intros id r Hr. cbn [table Demo.world] in Hr.
  apply lookup_singleton_Some in Hr as [_ <-].
  split; constructor.
Qed.

Lemma user_message_precedes_assistant_message_witness :
  let E := ListDemo.E in
  let req := Demo.hello in
  let w := Demo.world in
  let c := ListDemo.answered in
  let w' := ListDemo.after_answer in
  (clock_monotone E ∧
   valid_submission E req w Demo.row ∧
   table_in_order E w ∧
   post_message E req w = (sent c, w')) ∧
  ∃ um rest,
    conv_messages c = row_messages Demo.row ++ um :: rest ∧
    row_messages <$> (table w' !! req_params_id req) = Some (conv_messages c) ∧
    um = user_message E req w ∧
    msg_role um = user ∧
    rest ≠ [] ∧
    Forall (fun m => msg_role m = assistant
                     ∧ (msg_timestamp um ≤ msg_timestamp m)%Z) rest ∧
    timestamps_sorted (conv_messages c) ∧
    table_in_order E w'.
Proof.
  cbv zeta. split.
  - split; [apply demo_clock_monotone|].
    split; [apply demo_hello_valid|].
    split; [apply demo_world_in_order | exact demo_submit_response].
  - exact (user_message_precedes_assistant_message
             ListDemo.E Demo.hello Demo.world Demo.row
             ListDemo.answered ListDemo.after_answer
             (demo_clock_monotone _ _) (demo_hello_valid _ _)
             (demo_world_in_order _ _) demo_submit_response).
Defined.

(** * Further properties *)

(** ** Creating, reading and deleting a conversation *)

Lemma isLength_bounds min max s :
  isLength min max s = true → (min ≤ str_length s ≤ max)%Z.
Proof.
  unfold isLength. intros H. apply andb_true_iff in H as [Hmin Hmax].
  apply Z.leb_le in Hmin. apply Z.leb_le in Hmax. lia.
Qed.

Lemma create_runs E D userId title messages w t :
  pg_outcome E (queries w) = Some t →
  table w !! gen_random_uuid D (queries w) = None →
  (str_length title ≤ 255)%Z →
  let id := gen_random_uuid D (queries w) in
  let r := {| row_user_id := userId; row_title := title; row_messages := messages;
              row_created_at := t; row_updated_at := t |} in
  create E D userId title messages w =
    (Ok (new_Conversation (id, r)), set_table (<[id := r]> (table w)) (count_query w)).
Proof.
  intros Hq Hfresh Hlen id r. unfold create, bind, pgPool_query, insert_conversation.
  rewrite Hq. cbn. rewrite Hfresh, (varchar_255_fits _ Hlen). reflexivity.
Qed.

(** X1.  POST [/conversations] with a title that is 1 to 200 characters long
    once trimmed, when the INSERT runs with a fresh key: the answer is 201
    with the new conversation, which belongs to the caller, bears the trimmed
    title, has no messages and equal creation and update timestamps; the
    table is the old one with that row under the new key, and nothing is
    emitted. *)
Theorem created_conversation_is_stored E D req w t :
  isLength 1 200 (trim (req_body_title req)) = true →
  pg_outcome E (queries w) = Some t →
  table w !! gen_random_uuid D (queries w) = None →
  let id := gen_random_uuid D (queries w) in
  let r := {| row_user_id := usr_id (req_user req);
              row_title := trim (req_body_title req);
              row_messages := [];
              row_created_at := t; row_updated_at := t |} in
  ∃ w',
    post_conversation E D req w =
      ({| reply_status := 201;
          reply_payload :=
            body_payload (conversation_body "Conversation created successfully"
                            (new_Conversation (id, r))) |},
       w') ∧
    table w' = <[id := r]> (table w) ∧
    emitted w' = emitted w.
Proof.
  intros Hlen Hq Hfresh id r.
  unfold post_conversation, handleValidationErrors_reply, validateConversation.
  rewrite Hlen. unfold post_conversation_handler.
  cbn [sanitize_title req_user req_body_title].
  apply isLength_bounds in Hlen.
  rewrite (create_runs _ _ _ _ _ _ _ Hq Hfresh) by lia.
  eexists. split; [reflexivity|]. split; reflexivity.
Qed.

Lemma created_conversation_is_stored_witness :
  let E := Demo.env Demo.store_up None in
  let D := {| gen_random_uuid := fun _ => Demo.c2 |} in
  let req := Demo.request Demo.bob "" in
  let w := Demo.world in
  (isLength 1 200 (trim (req_body_title req)) = true ∧
   pg_outcome E (queries w) = Some 1000%Z ∧
   table w !! gen_random_uuid D (queries w) = None) ∧
  let id := gen_random_uuid D (queries w) in
  let r := {| row_user_id := usr_id (req_user req);
              row_title := trim (req_body_title req);
              row_messages := [];
              row_created_at := 1000%Z; row_updated_at := 1000%Z |} in
  ∃ w',
    post_conversation E D req w =
      ({| reply_status := 201;
          reply_payload :=
            body_payload (conversation_body "Conversation created successfully"
                            (new_Conversation (id, r))) |},
       w') ∧
    table w' = <[id := r]> (table w) ∧
    emitted w' = emitted w.
Proof.
  cbv zeta. split; [repeat split|].
  exact (created_conversation_is_stored (Demo.env Demo.store_up None)
           {| gen_random_uuid := fun _ => Demo.c2 |}
           (Demo.request Demo.bob "") Demo.world 1000%Z eq_refl eq_refl eq_refl).
Defined.

(** X2.  A title that is empty or longer than 200 characters once trimmed is
    answered 400 by the validator; no statement is issued and the world is
    the one before the request. *)
Theorem invalid_title_is_rejected E D req w :
  (trim (req_body_title req) = ""
   ∨ (200 < str_length (trim (req_body_title req)))%Z) →
  ∃ details,
    details ≠ [] ∧
    post_conversation E D req w =
      ({| reply_status := 400;
          reply_payload := body_payload (validation_body "Validation failed" details) |},
       w).
Proof.
  intros Htitle.
  assert (Hlen : isLength 1 200 (trim (req_body_title req)) = false).
  { apply isLength_false. destruct Htitle as [-> | H]; [left; reflexivity | right; exact H]. }
  unfold post_conversation, handleValidationErrors_reply, validateConversation.
  rewrite Hlen. eexists. split; [|reflexivity]. discriminate.
Qed.

Lemma invalid_title_is_rejected_witness :
  let E := Demo.env Demo.store_up None in
  let D := {| gen_random_uuid := fun _ => Demo.c2 |} in
  let req := {| req_params_id := ""; req_body_message := "";
                req_body_attachments := None; req_body_conversationId := None;
                req_body_title := "  "; req_user := Demo.alice;
                req_app_io := true |} in
  (trim (req_body_title req) = ""
   ∨ (200 < str_length (trim (req_body_title req)))%Z) ∧
  ∃ details,
    details ≠ [] ∧
    post_conversation E D req Demo.world =
      ({| reply_status := 400;
          reply_payload := body_payload (validation_body "Validation failed" details) |},
       Demo.world).
Proof.
  cbv zeta. split; [left; reflexivity|].
  exact (invalid_title_is_rejected (Demo.env Demo.store_up None)
           {| gen_random_uuid := fun _ => Demo.c2 |}
           {| req_params_id := ""; req_body_message := "";
              req_body_attachments := None; req_body_conversationId := None;
              req_body_title := "  "; req_user := Demo.alice;
              req_app_io := true |} Demo.world (or_introl eq_refl)).
Defined.

(** What GET [/conversations/:id] can answer, and that it is read-only. *)
Lemma get_conversation_inv E req w :
  ∃ reply w',
    get_conversation E req w = (reply, w') ∧
    table w' = table w ∧ emitted w' = emitted w ∧
    (reply_status reply = 400 ∨ reply_status reply = 404 ∨ reply_status reply = 500
     ∨ ∃ r, reply = {| reply_status := 200;
                       reply_payload :=
                         conversation_payload (new_Conversation (req_params_id req, r)) |}
            ∧ table w !! req_params_id req = Some r
            ∧ (truthy (Some (usr_id (req_user req))) = true
               → row_user_id r = usr_id (req_user req))).
Proof.
  unfold get_conversation, handleValidationErrors_reply.
  destruct (validateUUIDParam E "id" (req_params_id req)).
  2:{ eexists; eexists. split; [reflexivity|]. cbn. auto 6. }
  unfold get_conversation_handler.
  destruct (findById E (req_params_id req) (Some (usr_id (req_user req))) w)
    as [res w1] eqn:Hfind.
  apply findById_inv in Hfind as [-> Hres].
  destruct Hres as [[-> _] | [[-> _] | (r & -> & Hr & _ & Hscope)]].
  - eexists; eexists. split; [reflexivity|]. cbn. auto 6.
  - eexists; eexists. split; [reflexivity|]. cbn. auto 6.
  - eexists; eexists. split; [reflexivity|]. cbn.
    split; [reflexivity|]. split; [reflexivity|].
    right; right; right. exists r.
    split; [reflexivity|]. split; [exact Hr|].
    intros Hu. specialize (Hscope Hu). congruence.
Qed.

(** X3.  GET [/conversations/:id] changes neither the table nor the
    emissions, whatever it is asked and whatever the store answers; and when
    it answers 200 to a caller with an id, the conversation it shows is the
    stored row of that id and belongs to the caller. *)
Theorem get_conversation_shows_only_own E req w reply w' :
  truthy (Some (usr_id (req_user req))) = true →
  get_conversation E req w = (reply, w') →
  table w' = table w ∧
  emitted w' = emitted w ∧
  (reply_status reply = 200 →
   ∃ r, table w !! req_params_id req = Some r ∧
        row_user_id r = usr_id (req_user req) ∧
        reply_payload reply
          = conversation_payload (new_Conversation (req_params_id req, r))).
Proof.
  intros Hu Hget.
  destruct (get_conversation_inv E req w) as (reply0 & w0 & Heq & Ht & He & Hcases).
  rewrite Hget in Heq. injection Heq as <- <-.
  split; [exact Ht|]. split; [exact He|].
  intros Hok.
  destruct Hcases as [H | [H | [H | (r & -> & Hr & Ho)]]];
    [rewrite H in Hok; discriminate .. |].
  exists r. auto.
Qed.

Lemma get_conversation_shows_only_own_witness :
  let E := Demo.env Demo.store_up None in
  let req := Demo.hello in
  let reply := {| reply_status := 200;
                  reply_payload :=
                    conversation_payload (new_Conversation (Demo.c1, Demo.row)) |} in
  let w' := count_query Demo.world in
  (truthy (Some (usr_id (req_user req))) = true ∧
   get_conversation E req Demo.world = (reply, w')) ∧
  table w' = table Demo.world ∧
  emitted w' = emitted Demo.world ∧
  (reply_status reply = 200 →
   ∃ r, table Demo.world !! req_params_id req = Some r ∧
        row_user_id r = usr_id (req_user req) ∧
        reply_payload reply
          = conversation_payload (new_Conversation (req_params_id req, r))).
Proof.
  cbv zeta.
  assert (Hget : get_conversation (Demo.env Demo.store_up None) Demo.hello Demo.world
                 = ({| reply_status := 200;
                       reply_payload :=
                         conversation_payload (new_Conversation (Demo.c1, Demo.row)) |},
                    count_query Demo.world)) by (vm_compute; reflexivity).
  split; [split; [reflexivity | exact Hget]|].
  exact (get_conversation_shows_only_own (Demo.env Demo.store_up None) Demo.hello
           Demo.world _ _ eq_refl Hget).
Defined.

Lemma delete_runs E this w t :
  pg_outcome E (queries w) = Some t →
  Conversation_delete E this w =
    (Ok true, set_table (delete (conv_id this) (table w)) (count_query w)).
Proof.
  intros Hq. unfold Conversation_delete, bind, pgPool_query. rewrite Hq. reflexivity.
Qed.

Lemma findById_missing E id uid w t :
  pg_outcome E (queries w) = Some t →
  table w !! id = None →
  findById E id uid w = (Ok None, count_query w).
Proof.
  intros Hq Hr. unfold findById, bind, pgPool_query, run_select.
  rewrite Hq. cbn. rewrite Hr. reflexivity.
Qed.

(** X4.  DELETE [/conversations/:id] by the owner, when its two statements
    run, answers 200 and removes the row of that id and no other.  A message
    then submitted to the same id, by anyone, is answered 404 and changes
    nothing. *)
Theorem submit_after_delete_is_not_found E req msg w r t0 t1 t2 :
  isUUID E (req_params_id req) = true →
  truthy (Some (usr_id (req_user req))) = true →
  table w !! req_params_id req = Some r →
  row_user_id r = usr_id (req_user req) →
  pg_outcome E (queries w) = Some t0 →
  pg_outcome E (1 + queries w) = Some t1 →
  req_params_id msg = req_params_id req →
  validateChatMessage E msg = [] →
  pg_outcome E (2 + queries w) = Some t2 →
  ∃ w1 w2,
    delete_conversation E req w =
      ({| reply_status := 200;
          reply_payload := message_payload "Conversation deleted successfully" |}, w1) ∧
    table w1 = delete (req_params_id req) (table w) ∧
    post_message E msg w1 =
      (status_json 404 (error_body "Conversation not found"), w2) ∧
    table w2 = table w1 ∧
    emitted w2 = emitted w.
Proof.
  intros Hid Hu Hr Ho Hq0 Hq1 Hsame Hv Hq2.
  unfold delete_conversation, handleValidationErrors_reply, validateUUIDParam.
  rewrite Hid. unfold delete_conversation_handler.
  rewrite (findById_owned _ _ _ _ _ _ Hq0 Hr (truthy_nonempty _ Hu) Ho).
  rewrite (delete_runs _ _ _ t1) by exact Hq1.
  eexists; eexists. split; [reflexivity|]. split; [reflexivity|].
  unfold post_message, handleValidationErrors, validateUUIDParam.
  rewrite Hsame, Hid, Hv. unfold post_message_handler.
  cbn [sanitize_message req_params_id req_user].
  rewrite Hsame.
  erewrite findById_missing; [| exact Hq2 | cbn; apply lookup_delete_eq].
  repeat split.
Qed.

Lemma submit_after_delete_is_not_found_witness :
  let E := Demo.env Demo.store_up (Some Demo.reply) in
  let req := Demo.hello in
  let msg := Demo.request Demo.alice "Anyone there?" in
  let w := Demo.world in
  (isUUID E (req_params_id req) = true ∧
   truthy (Some (usr_id (req_user req))) = true ∧
   table w !! req_params_id req = Some Demo.row ∧
   row_user_id Demo.row = usr_id (req_user req) ∧
   pg_outcome E (queries w) = Some 1000%Z ∧
   pg_outcome E (1 + queries w) = Some 1001%Z ∧
   req_params_id msg = req_params_id req ∧
   validateChatMessage E msg = [] ∧
   pg_outcome E (2 + queries w) = Some 1002%Z) ∧
  ∃ w1 w2,
    delete_conversation E req w =
      ({| reply_status := 200;
          reply_payload := message_payload "Conversation deleted successfully" |}, w1) ∧
    table w1 = delete (req_params_id req) (table w) ∧
    post_message E msg w1 =
      (status_json 404 (error_body "Conversation not found"), w2) ∧
    table w2 = table w1 ∧
    emitted w2 = emitted w.
Proof.
  cbv zeta. split; [repeat split|].
  exact (submit_after_delete_is_not_found
           (Demo.env Demo.store_up (Some Demo.reply)) Demo.hello
           (Demo.request Demo.alice "Anyone there?") Demo.world Demo.row
           1000%Z 1001%Z 1002%Z
           eq_refl eq_refl eq_refl eq_refl eq_refl eq_refl eq_refl eq_refl eq_refl).
Defined.

(** X5.  Neither DELETE nor PUT [/conversations/:id] touches a conversation
    of somebody else: whatever the request holds and the store answers, the
    table is as before and the answer is an error. *)
Theorem foreign_conversation_is_never_deleted_or_renamed E req w r :
  truthy (Some (usr_id (req_user req))) = true →
  table w !! req_params_id req = Some r →
  row_user_id r ≠ usr_id (req_user req) →
  (∃ reply w',
     delete_conversation E req w = (reply, w') ∧
     table w' = table w ∧
     (reply_status reply = 400 ∨ reply_status reply = 404 ∨ reply_status reply = 500)) ∧
  (∃ resp w',
     put_conversation E req w = (resp, w') ∧
     table w' = table w ∧
     (status resp = 400 ∨ status resp = 404 ∨ status resp = 500)).
Proof.
  intros Hu Hr Ho.
  assert (Hnever : ∀ r', table w !! req_params_id req = Some r' →
            (truthy (Some (usr_id (req_user req))) = true →
             Some (usr_id (req_user req)) = Some (row_user_id r')) → False).
  { intros r' Hr' Hscope. specialize (Hscope Hu). rewrite Hr in Hr'.
    injection Hr' as <-. injection Hscope as Heq. congruence. }
  split.
  - unfold delete_conversation, handleValidationErrors_reply.
    destruct (validateUUIDParam E "id" (req_params_id req)).
    2:{ eexists; eexists. split; [reflexivity|]. cbn. auto. }
    unfold delete_conversation_handler.
    destruct (findById E (req_params_id req) (Some (usr_id (req_user req))) w)
      as [res w1] eqn:Hfind.
    apply findById_inv in Hfind as [-> Hres].
    destruct Hres as [[-> _] | [[-> _] | (r' & -> & Hr' & _ & Hscope)]].
    + eexists; eexists. split; [reflexivity|]. cbn. auto.
    + eexists; eexists. split; [reflexivity|]. cbn. auto.
    + destruct (Hnever r' Hr' Hscope).
  - unfold put_conversation, handleValidationErrors.
    destruct (validateUUIDParam E "id" (req_params_id req)).
    2:{ eexists; eexists. split; [reflexivity|]. cbn. auto. }
    unfold put_conversation_handler.
    destruct (findById E (req_params_id req) (Some (usr_id (req_user req))) w)
      as [res w1] eqn:Hfind.
    apply findById_inv in Hfind as [-> Hres].
    destruct Hres as [[-> _] | [[-> _] | (r' & -> & Hr' & _ & Hscope)]].
    + eexists; eexists. split; [reflexivity|]. cbn. auto.
    + eexists; eexists. split; [reflexivity|]. cbn. auto.
    + destruct (Hnever r' Hr' Hscope).
Qed.

Lemma foreign_conversation_is_never_deleted_or_renamed_witness :
  let E := Demo.env Demo.store_up None in
  let req := Demo.request Demo.bob "" in
  (truthy (Some (usr_id (req_user req))) = true ∧
   table Demo.world !! req_params_id req = Some Demo.row ∧
   row_user_id Demo.row ≠ usr_id (req_user req)) ∧
  (∃ reply w',
     delete_conversation E req Demo.world = (reply, w') ∧
     table w' = table Demo.world ∧
     (reply_status reply = 400 ∨ reply_status reply = 404 ∨ reply_status reply = 500)) ∧
  (∃ resp w',
     put_conversation E req Demo.world = (resp, w') ∧
     table w' = table Demo.world ∧
     (status resp = 400 ∨ status resp = 404 ∨ status resp = 500)).
Proof.
  cbv zeta.
  assert (Ho : row_user_id Demo.row ≠ usr_id Demo.bob) by discriminate.
  split; [split; [reflexivity | split; [reflexivity | exact Ho]]|].
  exact (foreign_conversation_is_never_deleted_or_renamed
           (Demo.env Demo.store_up None)
           (Demo.request Demo.bob "") Demo.world Demo.row eq_refl eq_refl Ho).
Defined.

(** X6.  A conversation that was just created is shown by GET
    [/conversations/:id] to its creator, as it was returned by the creation,
    and is answered 404 to any other caller. *)
Theorem created_conversation_is_read_by_its_creator_only E D req other w t0 t1 :
  isLength 1 200 (trim (req_body_title req)) = true →
  pg_outcome E (queries w) = Some t0 →
  table w !! gen_random_uuid D (queries w) = None →
  isUUID E (gen_random_uuid D (queries w)) = true →
  truthy (Some (usr_id (req_user req))) = true →
  truthy (Some (usr_id other)) = true →
  usr_id other ≠ usr_id (req_user req) →
  pg_outcome E (1 + queries w) = Some t1 →
  let read u :=
    {| req_params_id := gen_random_uuid D (queries w);
       req_body_message := ""; req_body_attachments := None;
       req_body_conversationId := None; req_body_title := "";
       req_user := u; req_app_io := false |} in
  ∃ c w1,
    post_conversation E D req w =
      ({| reply_status := 201;
          reply_payload :=
            body_payload (conversation_body "Conversation created successfully" c) |},
       w1) ∧
    fst (get_conversation E (read (req_user req)) w1)
      = {| reply_status := 200; reply_payload := conversation_payload c |} ∧
    fst (get_conversation E (read other) w1)
      = reply_error 404 "Conversation not found".
Proof.
  intros Hlen Hq0 Hfresh Hid Hu Hother Hne Hq1 read.
  unfold post_conversation, handleValidationErrors_reply, validateConversation.
  rewrite Hlen. unfold post_conversation_handler.
  cbn [sanitize_title req_user req_body_title].
  apply isLength_bounds in Hlen.
  rewrite (create_runs _ _ _ _ _ _ _ Hq0 Hfresh) by lia.
  eexists; eexists. split; [reflexivity|].
  unfold get_conversation, handleValidationErrors_reply, validateUUIDParam.
  cbn [read req_params_id req_user]. rewrite Hid.
  unfold get_conversation_handler. cbn [req_params_id req_user].
  split.
  - erewrite findById_owned;
      [reflexivity | exact Hq1 | cbn; apply lookup_insert_eq
       | exact (truthy_nonempty _ Hu) | reflexivity].
  - erewrite findById_foreign;
      [reflexivity | exact Hq1 | cbn; apply lookup_insert_eq
       | exact (truthy_nonempty _ Hother) | cbn; congruence].
Qed.

Lemma created_conversation_is_read_by_its_creator_only_witness :
  let E := Demo.env Demo.store_up None in
  let D := {| gen_random_uuid := fun _ => Demo.c2 |} in
  let req := Demo.request Demo.bob "" in
  let other := Demo.alice in
  let w := Demo.world in
  (isLength 1 200 (trim (req_body_title req)) = true ∧
   pg_outcome E (queries w) = Some 1000%Z ∧
   table w !! gen_random_uuid D (queries w) = None ∧
   isUUID E (gen_random_uuid D (queries w)) = true ∧
   truthy (Some (usr_id (req_user req))) = true ∧
   truthy (Some (usr_id other)) = true ∧
   usr_id other ≠ usr_id (req_user req) ∧
   pg_outcome E (1 + queries w) = Some 1001%Z) ∧
  let read u :=
    {| req_params_id := gen_random_uuid D (queries w);
       req_body_message := ""; req_body_attachments := None;
       req_body_conversationId := None; req_body_title := "";
       req_user := u; req_app_io := false |} in
  ∃ c w1,
    post_conversation E D req w =
      ({| reply_status := 201;
          reply_payload :=
            body_payload (conversation_body "Conversation created successfully" c) |},
       w1) ∧
    fst (get_conversation E (read (req_user req)) w1)
      = {| reply_status := 200; reply_payload := conversation_payload c |} ∧
    fst (get_conversation E (read other) w1)
      = reply_error 404 "Conversation not found".
Proof.
  cbv zeta.
  assert (Hne : usr_id Demo.alice ≠ usr_id Demo.bob) by discriminate.
  split; [repeat (split; [first [reflexivity | exact Hne]|]); reflexivity|].
  exact (created_conversation_is_read_by_its_creator_only
           (Demo.env Demo.store_up None) {| gen_random_uuid := fun _ => Demo.c2 |}
           (Demo.request Demo.bob "") Demo.alice Demo.world 1000%Z 1001%Z
           eq_refl eq_refl eq_refl eq_refl eq_refl eq_refl Hne eq_refl).
Defined.

(** ** Listing the conversations of a user *)

Global Instance newer_total : Total newer.
Proof. intros a b. unfold newer. lia. Qed.

Global Instance newer_trans : Transitive newer.
Proof. intros a b c. unfold newer. lia. Qed.

Lemma StronglySorted_sublist {A} (R : relation A) (l1 l2 : list A) :
  l1 `sublist_of` l2 → StronglySorted R l2 → StronglySorted R l1.
Proof.
  induction 1 as [|x l1 l2 Hsub IH|x l1 l2 Hsub IH]; intros Hs.
  - constructor.
  - apply StronglySorted_inv in Hs as [Hs Hall]. constructor; [auto|].
    rewrite Forall_forall in Hall |- *. intros y Hy.
    apply Hall. eapply elem_of_sublist; eassumption.
  - apply StronglySorted_inv in Hs as [Hs _]. auto.
Qed.

Lemma page_sublist {A} (l : list A) (n m : nat) : take n (drop m l) `sublist_of` l.
Proof.
  transitivity (drop m l); [apply sublist_take | apply sublist_drop].
Qed.

Lemma select_by_user_page userId limit offset tbl rows :
  select_by_user userId limit offset tbl = Some rows →
  (0 ≤ limit)%Z ∧ (0 ≤ offset)%Z ∧
  rows = take (Z.to_nat limit) (drop (Z.to_nat offset)
           (merge_sort newer (rows_of userId tbl))).
Proof.
  unfold select_by_user, rows_of.
  destruct (limit <? 0)%Z eqn:Hl; [discriminate|].
  destruct (offset <? 0)%Z eqn:Ho; [discriminate|].
  cbn. intros [= <-]. repeat split; lia.
Qed.

Lemma findById_query_counts E id uid w : snd (findById E id uid w) = count_query w.
Proof.
  destruct (findById E id uid w) as [res w'] eqn:H.
  apply findById_inv in H as [-> _]. reflexivity.
Qed.

Lemma findByUserId_inv E userId limit offset w cs w' :
  findByUserId E userId limit offset w = (Ok cs, w') →
  w' = count_query w ∧
  ∃ rows, select_by_user userId limit offset (table w) = Some rows
          ∧ cs = new_Conversation <$> rows.
Proof.
  unfold findByUserId, bind, pgPool_query.
  destruct (pg_outcome E (queries w)); [|discriminate]. cbn.
  destruct (select_by_user userId limit offset (table w)) as [rows|]; [|discriminate].
  cbn. intros [= <- <-]. split; [reflexivity|]. eauto.
Qed.

(** X7.  What [findByUserId] returns when its SELECT runs: only
    conversations of that user, each the stored row of its id, no id twice,
    at most [limit] of them, most recently updated first; the table is as
    before. *)
Theorem findByUserId_returns_own_newest_first E userId limit offset w cs w' :
  findByUserId E userId limit offset w = (Ok cs, w') →
  table w' = table w ∧
  (∀ c, c ∈ cs →
        conv_userId c = userId ∧
        ∃ r, table w !! conv_id c = Some r ∧ c = new_Conversation (conv_id c, r)) ∧
  NoDup (conv_id <$> cs) ∧
  (Z.of_nat (length cs) ≤ limit)%Z ∧
  newest_first cs.
Proof.
  intros Hfind.
  apply findByUserId_inv in Hfind as (-> & rows & Hsel & ->).
  apply select_by_user_page in Hsel as (Hlimit & Hoffset & ->).
  set (sorted := merge_sort newer (rows_of userId (table w))).
  assert (Hperm : sorted ≡ₚ rows_of userId (table w)) by apply merge_sort_Permutation.
  assert (Hsub : take (Z.to_nat limit) (drop (Z.to_nat offset) sorted) `sublist_of` sorted)
    by apply page_sublist.
  split; [reflexivity|]. split; [|split; [|split]].
  - intros c Hc. apply list_elem_of_fmap in Hc as ([id r] & -> & Hin).
    eapply elem_of_sublist in Hin; [|exact Hsub].
    rewrite Hperm in Hin. unfold rows_of in Hin.
    apply list_elem_of_filter in Hin as [Hown Hin].
    apply elem_of_map_to_list in Hin. cbn in *.
    split; [exact Hown|]. exists r. split; [exact Hin | reflexivity].
  - rewrite <- list_fmap_compose.
    assert (Hext : (conv_id ∘ new_Conversation) <$>
                     take (Z.to_nat limit) (drop (Z.to_nat offset) sorted)
                   = (take (Z.to_nat limit) (drop (Z.to_nat offset) sorted)).*1).
    { apply list_fmap_ext. intros i [id r] _. reflexivity. }
    rewrite Hext.
    eapply sublist_NoDup; [|apply fmap_sublist; exact Hsub].
    rewrite Hperm. unfold rows_of.
    eapply sublist_NoDup; [|apply fmap_sublist, sublist_filter].
    apply NoDup_fst_map_to_list.
  - rewrite length_fmap, length_take. lia.
  - unfold newest_first.
    apply (StronglySorted_fmap new_Conversation newer).
    + intros a b H. exact H.
    + eapply StronglySorted_sublist; [exact Hsub|].
      apply StronglySorted_merge_sort; apply _.
Qed.

Lemma findByUserId_witness_page :
  findByUserId (Demo.env Demo.store_up None) Demo.alice_id 20 0 Demo.world
    = (Ok [new_Conversation (Demo.c1, Demo.row)], count_query Demo.world).
Proof. vm_compute. reflexivity. Qed.

Lemma findByUserId_returns_own_newest_first_witness :
  let E := Demo.env Demo.store_up None in
  let cs := [new_Conversation (Demo.c1, Demo.row)] in
  let w' := count_query Demo.world in
  findByUserId E Demo.alice_id 20 0 Demo.world = (Ok cs, w') ∧
  table w' = table Demo.world ∧
  (∀ c, c ∈ cs →
        conv_userId c = Demo.alice_id ∧
        ∃ r, table Demo.world !! conv_id c = Some r
             ∧ c = new_Conversation (conv_id c, r)) ∧
  NoDup (conv_id <$> cs) ∧
  (Z.of_nat (length cs) ≤ 20)%Z ∧
  newest_first cs.
Proof.
  cbv zeta. split; [exact findByUserId_witness_page|].
  exact (findByUserId_returns_own_newest_first (Demo.env Demo.store_up None)
           Demo.alice_id 20 0 Demo.world _ _ findByUserId_witness_page).
Defined.

Lemma findByUserId_runs E userId limit offset w t :
  pg_outcome E (queries w) = Some t →
  (0 ≤ limit)%Z → (0 ≤ offset)%Z →
  findByUserId E userId limit offset w =
    (Ok (new_Conversation <$>
           take (Z.to_nat limit) (drop (Z.to_nat offset)
             (merge_sort newer (rows_of userId (table w))))),
     count_query w).
Proof.
  intros Hq Hl Ho. unfold findByUserId, bind, pgPool_query, select_by_user.
  rewrite Hq. cbn.
  destruct (limit <? 0)%Z eqn:El; [lia|].
  destruct (offset <? 0)%Z eqn:Eo; [lia|].
  reflexivity.
Qed.

(** X8.  GET [/conversations] sets [hasMore] by comparing the size of the
    page with [limit].  For a user whose conversations fill [page] pages
    exactly, page [page] is full and reports [hasMore: true], and the page
    after it is empty and reports [hasMore: false]. *)
Theorem full_last_page_reports_more E u page limit w t0 t1 :
  (0 < limit)%Z → (1 ≤ page)%Z →
  Z.of_nat (length (rows_of (usr_id u) (table w))) = (page * limit)%Z →
  pg_outcome E (queries w) = Some t0 →
  pg_outcome E (1 + queries w) = Some t1 →
  ∃ summaries w1 w2,
    get_conversations E u {| query_page := Some page; query_limit := Some limit |} w
      = ({| reply_status := 200;
            reply_payload := page_payload summaries page limit true |}, w1) ∧
    Z.of_nat (length summaries) = limit ∧
    get_conversations E u
        {| query_page := Some (page + 1)%Z; query_limit := Some limit |} w1
      = ({| reply_status := 200;
            reply_payload := page_payload [] (page + 1) limit false |}, w2) ∧
    table w2 = table w.
Proof.
  intros Hlimit Hpage Htotal Hq0 Hq1.
  set (sorted := merge_sort newer (rows_of (usr_id u) (table w))).
  assert (Hlen : length sorted = length (rows_of (usr_id u) (table w))).
  { apply Permutation_length, merge_sort_Permutation. }
  assert (Hoff : (0 ≤ (page - 1) * limit)%Z) by (apply Z.mul_nonneg_nonneg; lia).
  assert (Hoff' : (0 ≤ (page + 1 - 1) * limit)%Z) by (apply Z.mul_nonneg_nonneg; lia).
  assert (Hdrop : (Z.to_nat ((page - 1) * limit) + Z.to_nat limit)%nat
                  = length (rows_of (usr_id u) (table w))).
  { apply Nat2Z.inj. rewrite Htotal, Nat2Z.inj_add, !Z2Nat.id by lia. lia. }
  unfold get_conversations. cbn [default from_option query_page query_limit].
  unfold id.
  rewrite (findByUserId_runs _ _ _ _ _ t0 Hq0) by first [exact Hoff | lia].
  fold sorted.
  assert (Hfull : length (take (Z.to_nat limit)
                            (drop (Z.to_nat ((page - 1) * limit)) sorted))
                  = Z.to_nat limit).
  { rewrite length_take, length_drop, Hlen. lia. }
  eexists; eexists; eexists. split; [|split; [|split]].
  - rewrite !length_fmap, Hfull.
    replace (Z.of_nat (Z.to_nat limit) =? limit)%Z with true
      by (symmetry; apply Z.eqb_eq; lia).
    reflexivity.
  - rewrite !length_fmap, Hfull. lia.
  - rewrite (findByUserId_runs E _ _ _ (count_query w) t1 Hq1)
      by first [exact Hoff' | lia].
    cbn [table count_query]. fold sorted.
    replace ((page + 1 - 1) * limit)%Z with (page * limit)%Z by lia.
    rewrite drop_ge by (rewrite Hlen; lia).
    rewrite take_nil. cbn [fmap list_fmap length].
    replace (Z.of_nat 0 =? limit)%Z with false
      by (symmetry; apply Z.eqb_neq; lia).
    reflexivity.
  - reflexivity.
Qed.

Lemma full_last_page_reports_more_witness :
  let E := Demo.env Demo.store_up None in
  let u := Demo.alice in
  let w := Demo.world in
  ((0 < 1)%Z ∧ (1 ≤ 1)%Z ∧
   Z.of_nat (length (rows_of (usr_id u) (table w))) = (1 * 1)%Z ∧
   pg_outcome E (queries w) = Some 1000%Z ∧
   pg_outcome E (1 + queries w) = Some 1001%Z) ∧
  ∃ summaries w1 w2,
    get_conversations E u {| query_page := Some 1%Z; query_limit := Some 1%Z |} w
      = ({| reply_status := 200;
            reply_payload := page_payload summaries 1 1 true |}, w1) ∧
    Z.of_nat (length summaries) = 1%Z ∧
    get_conversations E u
        {| query_page := Some (1 + 1)%Z; query_limit := Some 1%Z |} w1
      = ({| reply_status := 200;
            reply_payload := page_payload [] (1 + 1) 1 false |}, w2) ∧
    table w2 = table w.
Proof.
  cbv zeta.
  assert (Htotal : Z.of_nat (length (rows_of (usr_id Demo.alice) (table Demo.world)))
                   = (1 * 1)%Z) by (vm_compute; reflexivity).
  split; [split; [lia | split; [lia | split; [exact Htotal | split; reflexivity]]]|].
  exact (full_last_page_reports_more (Demo.env Demo.store_up None) Demo.alice
           1 1 Demo.world 1000%Z 1001%Z ltac:(lia) ltac:(lia) Htotal eq_refl eq_refl).
Defined.

(** ** What a rename and a submission leave alone *)

(** X9.  PUT [/conversations/:id] by the owner, when its statements run.
    The route has no validator for the title: it is neither trimmed nor
    checked, so what the column [VARCHAR(255)] takes decides.  A title of at
    most 255 characters, also an empty or a blank one, is stored as it was
    sent.  Of a longer title whose characters after the 255th are all spaces
    the first 255 characters are stored.  Any other longer title is refused:
    the answer is 500 and the table is as before.  Where the title is
    stored, [updated_at] is set, and the messages, the owner and the creation
    time of the row and every other row are as before; nothing is emitted in
    any case. *)
Theorem rename_changes_title_only E req w r t0 t1 :
  isUUID E (req_params_id req) = true →
  truthy (Some (usr_id (req_user req))) = true →
  table w !! req_params_id req = Some r →
  row_user_id r = usr_id (req_user req) →
  pg_outcome E (queries w) = Some t0 →
  pg_outcome E (1 + queries w) = Some t1 →
  let title := req_body_title req in
  let result := put_conversation E req w in
  ((str_length title ≤ 255)%Z → renamed_as req r title t1 w result) ∧
  ((255 < str_length title)%Z →
     if only_spaces (String.substring 255 (String.length title - 255) title)
     then renamed_as req r (String.substring 0 255 title) t1 w result
     else fst result = status_json 500 (error_body "Failed to update conversation") ∧
          table (snd result) = table w ∧
          emitted (snd result) = emitted w).
Proof.
  intros Hid Hu Hr Ho Hq0 Hq1 title result. subst title result.
  rewrite (rename_outcome _ _ _ _ _ _ Hid Hu Hr Ho Hq0 Hq1).
  split.
  - intros Hlen. rewrite (varchar_255_fits _ Hlen).
    unfold renamed_as. cbn. rewrite app_nil_r. repeat split.
  - intros Hlen. unfold varchar, str_length in *.
    destruct (Nat.leb_spec (String.length (req_body_title req)) 255) as [Hle|_]; [lia|].
    destruct (only_spaces _).
    + unfold renamed_as. cbn. rewrite app_nil_r. repeat split.
    + cbn. rewrite app_nil_r. repeat split.
Qed.

Lemma rename_changes_title_only_witness :
  let E := Demo.env Demo.store_up None in
  let req := {| req_params_id := Demo.c1; req_body_message := "";
                req_body_attachments := None; req_body_conversationId := None;
                req_body_title := "  "; req_user := Demo.alice;
                req_app_io := true |} in
  let w := Demo.world in
  let r := Demo.row in
  (isUUID E (req_params_id req) = true ∧
   truthy (Some (usr_id (req_user req))) = true ∧
   table w !! req_params_id req = Some r ∧
   row_user_id r = usr_id (req_user req) ∧
   pg_outcome E (queries w) = Some 1000%Z ∧
   pg_outcome E (1 + queries w) = Some 1001%Z ∧
   (str_length (req_body_title req) ≤ 255)%Z) ∧
  renamed_as req r "  " 1001 w (put_conversation E req w).
Proof.
  cbv zeta.
  assert (Hlen : (str_length "  " ≤ 255)%Z) by (vm_compute; discriminate).
  split; [repeat split; exact Hlen|].
  exact (proj1 (rename_changes_title_only (Demo.env Demo.store_up None)
                  {| req_params_id := Demo.c1; req_body_message := "";
                     req_body_attachments := None; req_body_conversationId := None;
                     req_body_title := "  "; req_user := Demo.alice;
                     req_app_io := true |}
                  Demo.world Demo.row 1000%Z 1001%Z
                  eq_refl eq_refl eq_refl eq_refl eq_refl eq_refl) Hlen).
Defined.

(** A title of 256 letters is refused and the row is as it was; of a title
    of 255 letters and a space the letters are stored. *)
Example overlong_titles :
  let rename title :=
    put_conversation (Demo.env Demo.store_up None)
      {| req_params_id := Demo.c1; req_body_message := "";
         req_body_attachments := None; req_body_conversationId := None;
         req_body_title := title; req_user := Demo.alice; req_app_io := true |}
      Demo.world in
  fst (rename (copies 256 "x"))
    = status_json 500 (error_body "Failed to update conversation") ∧
  table (snd (rename (copies 256 "x"))) !! Demo.c1 = Some Demo.row ∧
  fst (rename (copies 255 "x" +:+ " "))
    = updated (new_Conversation (Demo.c1, with_title Demo.row (copies 255 "x") 1001)).
Proof. vm_compute. repeat split; reflexivity. Qed.

Lemma row_grows_refl r : row_grows r r.
Proof. repeat split; reflexivity. Qed.

Lemma only_grows_at_refl id tbl : only_grows_at id tbl tbl.
Proof.
  split; [reflexivity|].
  destruct (tbl !! id) as [r|] eqn:Hr; [|reflexivity].
  exists r. split; [reflexivity | apply row_grows_refl].
Qed.

Lemma only_grows_at_trans id tbl1 tbl2 tbl3 :
  only_grows_at id tbl1 tbl2 → only_grows_at id tbl2 tbl3 →
  only_grows_at id tbl1 tbl3.
Proof.
  intros [Ho1 Hi1] [Ho2 Hi2]. split.
  - intros id' Hne. rewrite (Ho2 id' Hne). apply Ho1. exact Hne.
  - destruct (tbl1 !! id) as [r1|].
    + destruct Hi1 as (r2 & Hr2 & Hu & Ht & Hc & Hp). rewrite Hr2 in Hi2.
      destruct Hi2 as (r3 & Hr3 & Hu' & Ht' & Hc' & Hp').
      exists r3. split; [exact Hr3|].
      repeat split; try congruence. etransitivity; eassumption.
    + rewrite Hi1 in Hi2. exact Hi2.
Qed.

(** [addMessage] on an attached receiver changes the table only by letting
    that row grow, and leaves the receiver, and the conversation it returns,
    attached. *)
Lemma addMessage_only_grows E id this message w :
  attached id (table w) this →
  let result := addMessage E this message w in
  only_grows_at id (table w) (table (snd result)) ∧
  attached id (table (snd result)) (fst (fst result)) ∧
  ∀ c, snd (fst result) = Ok c → attached id (table (snd result)) c.
Proof.
  intros [Hid Hpre] result. subst result. subst id.
  destruct (pg_outcome E (queries w)) as [t|] eqn:Hq.
  - destruct (table w !! conv_id this) as [r|] eqn:Hr.
    + rewrite (addMessage_runs _ _ _ _ _ _ Hq Hr). cbn [fst snd].
      cbn [advance table]. split; [|split].
      * split; [intros id' Hne; apply lookup_insert_ne; congruence|].
        rewrite Hr. eexists. split; [apply lookup_insert_eq|].
        repeat split. cbn.
        etransitivity; [apply (Hpre r eq_refl)|]. apply prefix_app_r. reflexivity.
      * split; [reflexivity|]. intros r'. cbn. rewrite lookup_insert_eq.
        intros [= <-]. reflexivity.
      * intros c [= <-]. split; [reflexivity|]. intros r'. cbn.
        rewrite lookup_insert_eq. intros [= <-]. reflexivity.
    + rewrite (addMessage_missing_row _ _ _ _ _ Hq Hr). cbn [fst snd advance table].
      split; [apply only_grows_at_refl|]. split; [|intros c [=]].
      split; [reflexivity|]. intros r'. cbn [push conv_id]. rewrite Hr. discriminate.
  - rewrite (addMessage_rejected _ _ _ _ Hq). cbn [fst snd advance table].
    split; [apply only_grows_at_refl|]. split; [|intros c [=]].
    split; [reflexivity|]. intros r' Hr'. cbn [push conv_id conv_messages] in *.
    etransitivity; [apply (Hpre r' Hr')|]. apply prefix_app_r. reflexivity.
Qed.

Lemma catch_aiError_only_grows E id c w :
  attached id (table w) c →
  only_grows_at id (table w) (table (snd (catch_aiError E c w))).
Proof.
  intros Hc. unfold catch_aiError.
  pose proof (addMessage_only_grows E id c
                {| in_role := assistant; in_content := fallback_content;
                   in_attachments := Some [] |} w Hc) as (Ht & _ & _).
  cbv zeta in Ht.
  destruct (addMessage E c _ w) as [[this' [c'|e]] w']; exact Ht.
Qed.

(** X10.  Whatever is submitted and whatever the store and the responder
    answer, POST [/conversations/:id/messages] is append-only: every row but
    [req.params.id] is untouched, no row appears or disappears, and that row
    keeps its owner, title and creation time and its messages as a prefix of
    the new ones. *)
Theorem submission_is_append_only E req w :
  only_grows_at (req_params_id req) (table w) (table (snd (post_message E req w))).
Proof.
  unfold post_message, handleValidationErrors.
  destruct (validateUUIDParam E "id" (req_params_id req));
    [|apply only_grows_at_refl].
  destruct (validateChatMessage E req); [|apply only_grows_at_refl].
  unfold post_message_handler. cbn [sanitize_message req_params_id req_user].
  destruct (findById E (req_params_id req) (Some (usr_id (req_user req))) w)
    as [res w1] eqn:Hfind.
  apply findById_inv in Hfind as [-> Hres].
  destruct Hres as [[-> _] | [[-> _] | (r & -> & Hr & _)]];
    [apply only_grows_at_refl .. |].
  assert (Hc : attached (req_params_id req) (table (count_query w))
                 (new_Conversation (req_params_id req, r))).
  { split; [reflexivity|]. intros r'. cbn. rewrite Hr. intros [= <-]. reflexivity. }
  match goal with
  | |- context [addMessage E ?c ?m (count_query w)] =>
      pose proof (addMessage_only_grows E _ c m (count_query w) Hc) as (Hg1 & _ & Hc2);
      cbv zeta in Hg1, Hc2;
      destruct (addMessage E c m (count_query w)) as [[this1 [c2|e]] w2]
  end; cbn [fst snd] in *; [|exact Hg1].
  specialize (Hc2 c2 eq_refl).
  destruct (generateAIResponse E (conv_messages c2) _) as [ai|e].
  - match goal with
    | |- context [addMessage E c2 ?m w2] =>
        pose proof (addMessage_only_grows E _ c2 m w2 Hc2) as (Hg2 & Hr2 & _);
        cbv zeta in Hg2, Hr2;
        destruct (addMessage E c2 m w2) as [[this2 [c3|e]] w3]
    end; cbn [fst snd] in *.
    + destruct (req_app_io (sanitize_message req)); cbn [snd emit table];
        exact (only_grows_at_trans _ _ _ _ Hg1 Hg2).
    + eapply only_grows_at_trans; [exact Hg1|].
      eapply only_grows_at_trans; [exact Hg2|].
      apply catch_aiError_only_grows. exact Hr2.
  - eapply only_grows_at_trans; [exact Hg1|].
    apply catch_aiError_only_grows. exact Hc2.
Qed.

(** X11.  A valid submission that is answered 500 has emitted nothing, and
    has left the conversation either as it was or with the user message as
    its only new message: an unanswered user turn, never a reply or a
    fallback. *)
Theorem failed_submission_keeps_at_most_the_user_message E req w r resp w' :
  valid_submission E req w r →
  post_message E req w = (resp, w') →
  status resp = 500 →
  emitted w' = emitted w ∧
  (table w' = table w
   ∨ ∃ t, table w' !! req_params_id req
          = Some (with_messages r (row_messages r ++ [user_message E req w]) t)
          ∧ ∀ id, id ≠ req_params_id req → table w' !! id = table w !! id).
Proof.
  intros Hvalid. rewrite (post_message_outcome _ _ _ _ Hvalid).
  unfold submission_outcome.
  assert (Hkept : ∀ t,
            persisted req r [user_message E req w] t w !! req_params_id req
              = Some (with_messages r (row_messages r ++ [user_message E req w]) t)
            ∧ ∀ id, id ≠ req_params_id req →
                    persisted req r [user_message E req w] t w !! id = table w !! id).
  { intros t. unfold persisted. split; [apply lookup_insert_eq|].
    intros id Hne. apply lookup_insert_ne. congruence. }
  destruct (pg_outcome E (queries w));
    [|intros [= <- <-] _; cbn; rewrite app_nil_r; auto].
  destruct (pg_outcome E (1 + queries w)) as [t1|];
    [|intros [= <- <-] _; cbn; rewrite app_nil_r; auto].
  destruct (mockResponse E _ _) as [ai|].
  - destruct (pg_outcome E (2 + queries w)); [intros [= <- <-]; discriminate|].
    destruct (pg_outcome E (3 + queries w)); [intros [= <- <-]; discriminate|].
    intros [= <- <-] _. cbn. rewrite app_nil_r. split; [reflexivity|].
    right. exists t1. apply Hkept.
  - destruct (pg_outcome E (2 + queries w)); [intros [= <- <-]; discriminate|].
    intros [= <- <-] _. cbn. rewrite app_nil_r. split; [reflexivity|].
    right. exists t1. apply Hkept.
Qed.

Lemma demo_failed_response :
  post_message StoreDemo.E_down Demo.hello Demo.world
    = (failed_to_send, StoreDemo.after_failure).
Proof. vm_compute. reflexivity. Qed.

Lemma failed_submission_keeps_at_most_the_user_message_witness :
  let E := StoreDemo.E_down in
  let req := Demo.hello in
  let w := Demo.world in
  let w' := StoreDemo.after_failure in
  (valid_submission E req w Demo.row ∧
   post_message E req w = (failed_to_send, w') ∧
   status failed_to_send = 500) ∧
  emitted w' = emitted w ∧
  (table w' = table w
   ∨ ∃ t, table w' !! req_params_id req
          = Some (with_messages Demo.row
                    (row_messages Demo.row ++ [user_message E req w]) t)
          ∧ ∀ id, id ≠ req_params_id req → table w' !! id = table w !! id).
Proof.
  cbv zeta.
  split; [split; [apply demo_hello_valid
                 | split; [exact demo_failed_response | reflexivity]]|].
  exact (failed_submission_keeps_at_most_the_user_message StoreDemo.E_down
           Demo.hello Demo.world Demo.row failed_to_send StoreDemo.after_failure
           (demo_hello_valid _ _) demo_failed_response eq_refl).
Defined.

(** ** The text that is stored *)

Lemma rtrim_idempotent s : rtrim (rtrim s) = rtrim s.
Proof.
  induction s as [|c s IH]; [reflexivity|].
  cbn. destruct (rtrim s) as [|c' t] eqn:Hs.
  - destruct (is_space c) eqn:Hc; [reflexivity|]. cbn. rewrite Hc. reflexivity.
  - cbn in IH |- *. rewrite IH. reflexivity.
Qed.

Lemma ltrim_head s c t : ltrim s = String c t → is_space c = false.
Proof.
  induction s as [|a s IH]; [discriminate|].
  cbn. destruct (is_space a) eqn:Ha; [exact IH|].
  intros [= <- <-]. exact Ha.
Qed.

Lemma rtrim_head c s : is_space c = false → ∃ t, rtrim (String c s) = String c t.
Proof.
  intros Hc. cbn. destruct (rtrim s); [rewrite Hc|]; eauto.
Qed.

Lemma trim_idempotent s : trim (trim s) = trim s.
Proof.
  unfold trim. destruct (ltrim s) as [|c t] eqn:Hl; [reflexivity|].
  pose proof (ltrim_head _ _ _ Hl) as Hc.
  destruct (rtrim_head c t Hc) as [u Hu]. rewrite Hu.
  cbn [ltrim]. rewrite Hc, <- Hu. apply rtrim_idempotent.
Qed.

(** X12.  The content of the user message of a valid submission is the
    trimmed text: it is between 1 and 10000 characters long and trimming it
    again changes nothing (it neither starts nor ends with white space); it
    is that message which a successful answer holds. *)
Theorem stored_user_content_is_trimmed_and_bounded E req w r :
  valid_submission E req w r →
  let content := msg_content (user_message E req w) in
  (1 ≤ str_length content ≤ 10000)%Z ∧
  trim content = content ∧
  ∀ c w', post_message E req w = (sent c, w') →
          user_message E req w ∈ conv_messages c.
Proof.
  intros Hvalid content. subst content. cbn [user_message message_at msg_content].
  split; [|split].
  - destruct Hvalid as (_ & Hv & _). unfold validateChatMessage in Hv.
    destruct (isLength 1 10000 (trim (req_body_message req))) eqn:Hlen;
      [|discriminate].
    unfold isLength in Hlen. apply andb_true_iff in Hlen as [H1 H2].
    apply Z.leb_le in H1, H2. lia.
  - apply trim_idempotent.
  - intros c w' Hsent.
    destruct (sent_conversation_cases _ _ _ _ _ _ Hvalid Hsent)
      as (added & t & n & -> & _ & _ & _ & Hcases).
    cbn. apply elem_of_app. right.
    destruct Hcases as [[ai ->] | [-> | [ai ->]]]; apply list_elem_of_here.
Qed.

Lemma stored_user_content_is_trimmed_and_bounded_witness :
  let E := Demo.env Demo.store_up (Some Demo.reply) in
  let req := Demo.request Demo.alice "  Hello  " in
  let w := Demo.world in
  valid_submission E req w Demo.row ∧
  let content := msg_content (user_message E req w) in
  (1 ≤ str_length content ≤ 10000)%Z ∧
  trim content = content ∧
  ∀ c w', post_message E req w = (sent c, w') →
          user_message E req w ∈ conv_messages c.
Proof.
  cbv zeta.
  assert (Hvalid : valid_submission (Demo.env Demo.store_up (Some Demo.reply))
                     (Demo.request Demo.alice "  Hello  ") Demo.world Demo.row)
    by (repeat split).
  split; [exact Hvalid|].
  exact (stored_user_content_is_trimmed_and_bounded _ _ _ _ Hvalid).
Defined.

(** ** A conversation whose row is gone *)

(** X13.  [addMessage] and [updateTitle] on a conversation whose row is no
    longer in the table (their UPDATE runs and matches nothing) throw, and do
    not bring the row back: the table is as before. *)
Theorem update_of_a_missing_row_throws E this message title w t :
  pg_outcome E (queries w) = Some t →
  table w !! conv_id this = None →
  snd (fst (addMessage E this message w)) = Throw TypeError ∧
  table (snd (addMessage E this message w)) = table w ∧
  fst (updateTitle E this title w) = Throw TypeError ∧
  table (snd (updateTitle E this title w)) = table w.
Proof.
  intros Hq Hr.
  rewrite (addMessage_missing_row _ _ _ _ _ Hq Hr). cbn [fst snd advance table].
  split; [reflexivity|]. split; [reflexivity|].
  unfold updateTitle, bind, pgPool_query, update_title.
  rewrite Hq. cbn. rewrite Hr. cbn. split; reflexivity.
Qed.

Lemma update_of_a_missing_row_throws_witness :
  let E := Demo.env Demo.store_up None in
  let this := new_Conversation (Demo.c0, Demo.row) in
  let message := {| in_role := user; in_content := "Hello"; in_attachments := None |} in
  let w := Demo.world in
  (pg_outcome E (queries w) = Some 1000%Z ∧
   table w !! conv_id this = None) ∧
  snd (fst (addMessage E this message w)) = Throw TypeError ∧
  table (snd (addMessage E this message w)) = table w ∧
  fst (updateTitle E this "Gone" w) = Throw TypeError ∧
  table (snd (updateTitle E this "Gone" w)) = table w.
Proof.
  cbv zeta. split; [split; reflexivity|].
  exact (update_of_a_missing_row_throws (Demo.env Demo.store_up None)
           (new_Conversation (Demo.c0, Demo.row))
           {| in_role := user; in_content := "Hello"; in_attachments := None |}
           "Gone" Demo.world 1000%Z eq_refl eq_refl).
Defined.

(** ** The client: removing, creating, and the order of arrival *)

(** X14.  [REMOVE_CONVERSATION] drops from the list exactly the entries with
    the given id and keeps the others in their order; it closes the open
    conversation if and only if that is the one removed; the flags and the
    error are as before; and a second removal changes nothing. *)
Theorem REMOVE_CONVERSATION_removes_that_id_only state id :
  let s' := chatReducer state (REMOVE_CONVERSATION id) in
  (∀ conv, conv ∈ conversations s'
           ↔ conv ∈ conversations state ∧ sum_id conv ≠ id) ∧
  conversations s' `sublist_of` conversations state ∧
  currentConversation s'
    = (if current_is state id then None else currentConversation state) ∧
  (∀ c, currentConversation s' = Some c → conv_id c ≠ id) ∧
  isLoading s' = isLoading state ∧ isTyping s' = isTyping state ∧
  error s' = error state ∧
  chatReducer s' (REMOVE_CONVERSATION id) = s'.
Proof.
  cbn. split; [|split; [|split; [|split]]].
  - intros conv. rewrite list_elem_of_filter. tauto.
  - apply sublist_filter.
  - reflexivity.
  - intros c. unfold current_is.
    destruct (currentConversation state) as [c0|] eqn:Hc; [|discriminate].
    destruct (String.eqb_spec (conv_id c0) id) as [Heq|Hne]; [discriminate|].
    intros [= <-]. exact Hne.
  - repeat split.
    assert (Hfilter : filter (fun conv => sum_id conv ≠ id)
                        (filter (fun conv => sum_id conv ≠ id) (conversations state))
                      = filter (fun conv => sum_id conv ≠ id) (conversations state)).
    { induction (conversations state) as [|a l IH]; [reflexivity|].
      rewrite (filter_cons _ a l). destruct (decide (sum_id a ≠ id)) as [Ha|Ha].
      - rewrite filter_cons_True by exact Ha. f_equal. exact IH.
      - exact IH. }
    rewrite Hfilter. f_equal.
    unfold current_is. cbn.
    destruct (currentConversation state) as [c0|] eqn:Hc; [|reflexivity].
    destruct (String.eqb (conv_id c0) id) eqn:He; [reflexivity|].
    cbn. rewrite He. reflexivity.
Qed.

(** X15.  A conversation that is created and then answered stays first in
    the list: after [createConversation] and a successful [sendMessage] for
    it, the head of the list is the summary of the answered conversation,
    the entries with other ids follow as they were, and the answered
    conversation is the open one. *)
Theorem created_then_answered_is_first state c c' :
  conv_id c' = conv_id c →
  let s' := dispatch_all state (createConversation_success c ++ sendMessage_success c') in
  conversations s'
    = summary_payload c' :: replace_in_place (summary_payload c') (conversations state) ∧
  currentConversation s' = Some c' ∧
  isTyping s' = false.
Proof.
  intros Hid s'. subst s'.
  unfold dispatch_all. rewrite fold_left_app. fold (dispatch_all
    (fold_left chatReducer (createConversation_success c) state)
    (sendMessage_success c')).
  split; [|split; reflexivity].
  rewrite sendMessage_success_list. cbn.
  rewrite <- Hid, String.eqb_refl. reflexivity.
Qed.

Lemma created_then_answered_is_first_witness :
  let state := ListDemo.two_listed in
  let c := new_Conversation (Demo.c2, Demo.row) in
  let c' := push c ClientDemo.greeting in
  conv_id c' = conv_id c ∧
  let s' := dispatch_all state (createConversation_success c ++ sendMessage_success c') in
  conversations s'
    = summary_payload c' :: replace_in_place (summary_payload c') (conversations state) ∧
  currentConversation s' = Some c' ∧
  isTyping s' = false.
Proof.
  cbv zeta. split; [reflexivity|].
  exact (created_then_answered_is_first ListDemo.two_listed
           (new_Conversation (Demo.c2, Demo.row))
           (push (new_Conversation (Demo.c2, Demo.row)) ClientDemo.greeting) eq_refl).
Defined.

(** X16.  End to end, for a valid submission that the responder answers,
    whose statements run and whose app carries an [io]: the route stores the
    user message and the reply, emits [message-received] with the reply and
    answers 200 with [{ message, conversation }].  In the session that
    submitted it, with that conversation open, [sendMessage] reads that body
    as a failure.  So, wherever among the dispatches of [sendMessage] the
    event is handled, the open conversation ends as it was with the reply
    appended once and without the user's own message, which the store holds
    before the reply; the list is as before and the error is "Failed to
    send message". *)
Theorem submitter_gets_the_reply_without_its_own_message
    E req w r t0 t1 t2 ai state current before after :
  valid_submission E req w r →
  req_app_io req = true →
  pg_outcome E (queries w) = Some t0 →
  pg_outcome E (1 + queries w) = Some t1 →
  mockResponse E (trim (req_body_message req)) (usr_id (req_user req)) = Some ai →
  pg_outcome E (2 + queries w) = Some t2 →
  currentConversation state = Some current →
  conv_id current = req_params_id req →
  let result := post_message E req w in
  let um := user_message E req w in
  let am := assistant_message E ai w in
  fst (sendMessage_resolved (read_body (body (fst result)))) = before ++ after →
  status (fst result) = 200%nat ∧
  (row_messages <$> table (snd result) !! req_params_id req)
    = Some (row_messages r ++ [um; am]) ∧
  ∃ e,
    emitted (snd result) = emitted w ++ [e] ∧
    em_event e = "message-received" ∧
    em_message e = Some am ∧
    let s' := dispatch_all state
                (before ++ onMessageReceived (em_conversationId e) am ++ after) in
    currentConversation s' = Some (push current am) ∧
    conv_messages (push current am) = conv_messages current ++ [am] ∧
    conversations s' = conversations state ∧
    error s' = Some "Failed to send message".
Proof.
  intros Hvalid Hio Hq0 Hq1 Hai Hq2 Hopen Hsame result um am.
  subst result um am.
  rewrite (post_message_outcome _ _ _ _ Hvalid). unfold submission_outcome.
  rewrite Hq0, Hq1, Hai, Hq2, Hio. cbn [fst snd].
  intros Hsplit.
  split; [reflexivity|]. split.
  { cbn [world_after table]. unfold persisted. rewrite lookup_insert_eq. reflexivity. }
  eexists. split; [reflexivity|]. split; [reflexivity|]. split; [reflexivity|].
  cbn [message_received em_conversationId]. cbv zeta.
  change (fst (sendMessage_resolved (read_body (body (sent _)))))
    with (sendMessage_failure "Failed to send message") in Hsplit.
  unfold sendMessage_failure in Hsplit.
  assert (Hhit : ∀ s, currentConversation s = Some current →
            chatReducer s (ADD_MESSAGE (req_params_id req)
                             (assistant_message E ai w))
            = {| conversations := conversations s;
                 currentConversation := Some (push current (assistant_message E ai w));
                 isLoading := isLoading s; isTyping := isTyping s;
                 error := error s |}).
  { intros s Hs. unfold chatReducer. rewrite Hs, <- Hsame, String.eqb_refl. reflexivity. }
  unfold onMessageReceived, dispatch_all.
  destruct before as [|a1 [|a2 [|a3 [|a4 before]]]]; cbn in Hsplit.
  - subst after. cbn [app fold_left].
    rewrite (Hhit state Hopen). cbn. repeat split.
  - injection Hsplit as <- <-. cbn [app fold_left].
    rewrite Hhit by exact Hopen. cbn. repeat split.
  - injection Hsplit as <- <- <-. cbn [app fold_left].
    rewrite Hhit by exact Hopen. cbn. repeat split.
  - injection Hsplit as <- <- <- <-. cbn [app fold_left].
    rewrite Hhit by exact Hopen. cbn. repeat split.
  - discriminate.
Qed.

Lemma submitter_gets_the_reply_without_its_own_message_witness :
  let E := ListDemo.E in
  let req := Demo.hello in
  let w := Demo.world in
  let state := ClientDemo.open_demo in
  let before := [SET_TYPING true] in
  let after := [SET_ERROR "Failed to send message"; SET_TYPING false] in
  let result := post_message E req w in
  let am := assistant_message E Demo.reply w in
  (valid_submission E req w Demo.row ∧
   req_app_io req = true ∧
   pg_outcome E (queries w) = Some 1000%Z ∧
   pg_outcome E (1 + queries w) = Some 1001%Z ∧
   mockResponse E (trim (req_body_message req)) (usr_id (req_user req))
     = Some Demo.reply ∧
   pg_outcome E (2 + queries w) = Some 1002%Z ∧
   currentConversation state = Some ClientDemo.demo ∧
   conv_id ClientDemo.demo = req_params_id req ∧
   fst (sendMessage_resolved (read_body (body (fst result)))) = before ++ after) ∧
  status (fst result) = 200%nat ∧
  (row_messages <$> table (snd result) !! req_params_id req)
    = Some (row_messages Demo.row ++ [user_message E req w; am]) ∧
  ∃ e,
    emitted (snd result) = emitted w ++ [e] ∧
    em_event e = "message-received" ∧
    em_message e = Some am ∧
    let s' := dispatch_all state
                (before ++ onMessageReceived (em_conversationId e) am ++ after) in
    currentConversation s' = Some (push ClientDemo.demo am) ∧
    conv_messages (push ClientDemo.demo am) = conv_messages ClientDemo.demo ++ [am] ∧
    conversations s' = conversations state ∧
    error s' = Some "Failed to send message".
Proof.
  cbv zeta.
  assert (Hsplit :
            fst (sendMessage_resolved
                   (read_body (body (fst (post_message ListDemo.E Demo.hello Demo.world)))))
            = [SET_TYPING true]
              ++ [SET_ERROR "Failed to send message"; SET_TYPING false]).
  { rewrite demo_submit_response. reflexivity. }
  split.
  - split; [apply demo_hello_valid|].
    repeat (split; [reflexivity|]). exact Hsplit.
  - exact (submitter_gets_the_reply_without_its_own_message
             ListDemo.E Demo.hello Demo.world Demo.row 1000%Z 1001%Z 1002%Z
             Demo.reply ClientDemo.open_demo ClientDemo.demo
             [SET_TYPING true]
             [SET_ERROR "Failed to send message"; SET_TYPING false]
             (demo_hello_valid _ _) eq_refl eq_refl eq_refl eq_refl eq_refl
             eq_refl eq_refl Hsplit).
Defined.

(** X18.  After a successful [sendMessage] the answered conversation is the
    open one, and every listed entry with its id shows the number of its
    messages and its last message; the entries with other ids are as
    before, and a conversation that is not listed is not put on the list. *)
Theorem answered_conversation_and_list_agree state c :
  let s' := dispatch_all state (sendMessage_success c) in
  currentConversation s' = Some c ∧
  (∀ i conv, conversations s' !! i = Some conv → sum_id conv = conv_id c →
             sum_messageCount conv = length (conv_messages c) ∧
             sum_lastMessage conv = last (conv_messages c)) ∧
  (∀ i conv, conversations state !! i = Some conv → sum_id conv ≠ conv_id c →
             conversations s' !! i = Some conv) ∧
  (conv_id c ∉ (sum_id <$> conversations state) →
   conversations s' = conversations state).
Proof.
  cbv zeta. rewrite sendMessage_success_list.
  split; [reflexivity|]. split; [|split].
  - intros i conv Hi Hid. unfold replace_in_place in Hi.
    change (map ?f ?l) with (f <$> l) in Hi.
    rewrite list_lookup_fmap in Hi.
    destruct (conversations state !! i) as [old|]; [|discriminate].
    cbn in Hi. injection Hi as <-.
    destruct (String.eqb_spec (sum_id old) (conv_id c)) as [_|Hne].
    + split; reflexivity.
    + cbn in Hid. congruence.
  - intros i conv Hi Hne. rewrite (replace_in_place_lookup _ _ _ _ Hi). cbn.
    destruct (String.eqb_spec (sum_id conv) (conv_id c)); [congruence | reflexivity].
  - intros Habsent. apply replace_in_place_absent. exact Habsent.
Qed.

(** ** Ids that are not UUIDs *)

(** X19.  Each of the four routes on [/conversations/:id] answers an id that
    the validator does not take for a UUID with 400 and issues no statement:
    the world is the one before the request. *)
Theorem malformed_id_is_rejected_everywhere E req w :
  isUUID E (req_params_id req) = false →
  ∃ details,
    details ≠ [] ∧
    post_message E req w
      = (status_json 400 (validation_body "Validation failed" details), w) ∧
    put_conversation E req w
      = (status_json 400 (validation_body "Validation failed" details), w) ∧
    get_conversation E req w
      = ({| reply_status := 400;
            reply_payload :=
              body_payload (validation_body "Validation failed" details) |}, w) ∧
    delete_conversation E req w
      = ({| reply_status := 400;
            reply_payload :=
              body_payload (validation_body "Validation failed" details) |}, w).
Proof.
  intros Hid.
  unfold post_message, put_conversation, get_conversation, delete_conversation,
    handleValidationErrors, handleValidationErrors_reply, validateUUIDParam.
  rewrite Hid. eexists. split; [|repeat split]. discriminate.
Qed.

Lemma malformed_id_is_rejected_everywhere_witness :
  let E := Demo.env Demo.store_up None in
  let req := {| req_params_id := "42"; req_body_message := "Hello";
                req_body_attachments := None; req_body_conversationId := None;
                req_body_title := "Demo"; req_user := Demo.alice;
                req_app_io := true |} in
  let w := Demo.world in
  isUUID E (req_params_id req) = false ∧
  ∃ details,
    details ≠ [] ∧
    post_message E req w
      = (status_json 400 (validation_body "Validation failed" details), w) ∧
    put_conversation E req w
      = (status_json 400 (validation_body "Validation failed" details), w) ∧
    get_conversation E req w
      = ({| reply_status := 400;
            reply_payload :=
              body_payload (validation_body "Validation failed" details) |}, w) ∧
    delete_conversation E req w
      = ({| reply_status := 400;
            reply_payload :=
              body_payload (validation_body "Validation failed" details) |}, w).
Proof.
  cbv zeta. split; [reflexivity|].
  exact (malformed_id_is_rejected_everywhere (Demo.env Demo.store_up None)
           {| req_params_id := "42"; req_body_message := "Hello";
              req_body_attachments := None; req_body_conversationId := None;
              req_body_title := "Demo"; req_user := Demo.alice;
              req_app_io := true |} Demo.world eq_refl).
Defined.

(** ** [toSafeJSON] *)

(** X20.  The credentials that [toSafeJSON] shows have the keys of the
    stored ones, in their order, and every value is [null] or ['***'].  They
    depend only on which credentials are set: two configurations with the
    same keys, set or unset alike, are shown alike, whatever the secrets. *)
Theorem masked_credentials_hide_the_values (c1 c2 : Credentials) :
  (fun kv => (fst kv, truthy (snd kv))) <$> c1
    = (fun kv => (fst kv, truthy (snd kv))) <$> c2 →
  mask_credentials c1 = mask_credentials c2 ∧
  fst <$> mask_credentials c1 = fst <$> c1 ∧
  ∀ kv, kv ∈ mask_credentials c1 → snd kv = None ∨ snd kv = Some "***".
Proof.
  intros Hsame. unfold mask_credentials. split; [|split].
  - transitivity
      ((fun kb : string * bool => (fst kb, if snd kb then Some "***" else None))
         <$> ((fun kv : string * option string => (fst kv, truthy (snd kv))) <$> c1)).
    + rewrite <- list_fmap_compose. reflexivity.
    + rewrite Hsame, <- list_fmap_compose. reflexivity.
  - rewrite <- list_fmap_compose. apply list_fmap_ext. intros i kv _. reflexivity.
  - intros kv Hkv. apply list_elem_of_fmap in Hkv as (kv0 & -> & _). cbn.
    destruct (truthy (snd kv0)); auto.
Qed.

Lemma masked_credentials_hide_the_values_witness :
  let c1 : Credentials := [("apiKey", Some "sk-first"); ("bearerToken", None)] in
  let c2 : Credentials := [("apiKey", Some "sk-second"); ("bearerToken", Some "")] in
  (fun kv => (fst kv, truthy (snd kv))) <$> c1
    = (fun kv => (fst kv, truthy (snd kv))) <$> c2 ∧
  mask_credentials c1 = mask_credentials c2 ∧
  fst <$> mask_credentials c1 = fst <$> c1 ∧
  ∀ kv, kv ∈ mask_credentials c1 → snd kv = None ∨ snd kv = Some "***".
Proof.
  cbv zeta. split; [reflexivity|].
  exact (masked_credentials_hide_the_values
           [("apiKey", Some "sk-first"); ("bearerToken", None)]
           [("apiKey", Some "sk-second"); ("bearerToken", Some "")] eq_refl).
Defined.

(** ** The mock responder's choice of answer *)

Lemma includes_unfold s sub :
  includes s sub
  = starts_with sub s || match s with
                         | EmptyString => false
                         | String _ s' => includes s' sub
                         end.
Proof. destruct s; reflexivity. Qed.

Lemma starts_with_includes p q s :
  starts_with (p +:+ q) s = true → includes s q = true.
Proof.
  revert s. induction p as [|a p IH]; intros s H.
  - change ("" +:+ q) with q in H. rewrite includes_unfold, H. reflexivity.
  - destruct s as [|b s]; [discriminate|].
    change (String a p +:+ q) with (String a (p +:+ q)) in H. cbn in H.
    apply andb_true_iff in H as [_ H]. apply IH in H.
    rewrite includes_unfold, H. apply orb_true_r.
Qed.

Lemma includes_tail s p q : includes s (p +:+ q) = true → includes s q = true.
Proof.
  induction s as [|b s IH]; intros H; rewrite includes_unfold in H.
  - rewrite orb_false_r in H. exact (starts_with_includes _ _ _ H).
  - apply orb_true_iff in H as [H|H].
    + exact (starts_with_includes _ _ _ H).
    + apply IH in H. rewrite includes_unfold, H. apply orb_true_r.
Qed.

Lemma lower_unit_idempotent c : lower_unit (lower_unit c) = lower_unit c.
Proof.
  destruct c as [[] [] [] [] [] [] [] []]; vm_compute; reflexivity.
Qed.

Lemma toLowerCase_idempotent s : toLowerCase (toLowerCase s) = toLowerCase s.
Proof.
  induction s as [|c s IH]; [reflexivity|].
  cbn. rewrite lower_unit_idempotent, IH. reflexivity.
Qed.

(** X21.  The mock responder reads a message in lower case only, so two
    messages that differ in case are answered by the same branch and with the
    same language; and since "javascript" ends in "script", every message
    that mentions it, in whatever case, is answered as a request for code,
    whether or not it asks for any. *)
Theorem mock_branch_ignores_case a b configs :
  toLowerCase a = toLowerCase b →
  detectLanguage a = detectLanguage b ∧
  mock_branch a configs = mock_branch b configs ∧
  mock_branch (toLowerCase a) configs = mock_branch a configs ∧
  (includes (toLowerCase a) "javascript" = true →
   ∃ language, mock_branch a configs = code_request language).
Proof.
  intros Hcase.
  assert (Hd : detectLanguage a = detectLanguage b).
  { unfold detectLanguage. rewrite Hcase. reflexivity. }
  assert (Hl : detectLanguage (toLowerCase a) = detectLanguage a).
  { unfold detectLanguage. rewrite toLowerCase_idempotent. reflexivity. }
  split; [exact Hd|]. split; [|split].
  - unfold mock_branch. rewrite Hcase, Hd. reflexivity.
  - unfold mock_branch. rewrite toLowerCase_idempotent, Hl. reflexivity.
  - intros Hjs. unfold mock_branch.
    assert (Hscript : includes (toLowerCase a) "script" = true)
      by exact (includes_tail _ "java" "script" Hjs).
    rewrite Hscript, !orb_true_r. eauto.
Qed.

Lemma mock_branch_ignores_case_witness :
  let a := "What is JavaScript?" in
  let b := "what is javascript?" in
  toLowerCase a = toLowerCase b ∧
  detectLanguage a = detectLanguage b ∧
  mock_branch a 0 = mock_branch b 0 ∧
  mock_branch (toLowerCase a) 0 = mock_branch a 0 ∧
  (includes (toLowerCase a) "javascript" = true →
   ∃ language, mock_branch a 0 = code_request language).
Proof.
  cbv zeta. split; [reflexivity|].
  exact (mock_branch_ignores_case "What is JavaScript?" "what is javascript?" 0
           eq_refl).
Defined.

(** ** The password rule *)

Lemma has_char_spec p s :
  has_char p s = true ↔ ∃ c, In c (String.list_ascii_of_string s) ∧ p c = true.
Proof.
  induction s as [|a s IH]; cbn.
  - split; [discriminate | intros (c & [] & _)].
  - rewrite orb_true_iff, IH. split.
    + intros [H | (c & Hin & Hc)]; [exists a; auto | exists c; auto].
    + intros (c & [<- | Hin] & Hc); [left; exact Hc | right; exists c; auto].
Qed.

(** X22.  [validatePasswordUpdate] lets a password update through exactly
    when the current password is not empty and the new password has at
    least 8 characters and holds, on its first line, a lower-case letter,
    an upper-case letter and a digit.  All three are looked for before the
    first line break only: what follows it does not count. *)
Theorem accepted_password_update_is_strong b :
  validatePasswordUpdate b = [] ↔
  body_currentPassword b ≠ "" ∧
  (8 ≤ str_length (body_newPassword b))%Z ∧
  (∃ c, In c (String.list_ascii_of_string (first_line (body_newPassword b)))
        ∧ is_lower c = true) ∧
  (∃ c, In c (String.list_ascii_of_string (first_line (body_newPassword b)))
        ∧ is_upper c = true) ∧
  (∃ c, In c (String.list_ascii_of_string (first_line (body_newPassword b)))
        ∧ is_digit c = true).
Proof.
  rewrite <- !has_char_spec.
  unfold validatePasswordUpdate, matches_password_pattern, isLength_min.
  destruct (String.eqb_spec (body_currentPassword b) "") as [Hcur|Hcur].
  { split; [discriminate | intros [H _]; congruence]. }
  destruct (Z.leb_spec 8 (str_length (body_newPassword b))) as [Hlen|Hlen].
  2:{ split; [discriminate | intros (_ & H & _); lia]. }
  destruct (has_char is_lower (first_line (body_newPassword b)));
    destruct (has_char is_upper (first_line (body_newPassword b)));
    destruct (has_char is_digit (first_line (body_newPassword b)));
    cbn; split; try discriminate; try (intros _; repeat split; assumption);
    intros (_ & _ & H1 & H2 & H3); discriminate.
Qed.

Lemma accepted_password_update_is_strong_witness :
  let b := {| body_currentPassword := "old-Secret1"; body_newPassword := "new-Secret2" |} in
  let broken := {| body_currentPassword := "old-Secret1";
                   body_newPassword := "a100000" +:+ String "010"%char "A" |} in
  validatePasswordUpdate b = [] ∧
  (body_currentPassword b ≠ "" ∧
   (8 ≤ str_length (body_newPassword b))%Z ∧
   (∃ c, In c (String.list_ascii_of_string (first_line (body_newPassword b)))
         ∧ is_lower c = true) ∧
   (∃ c, In c (String.list_ascii_of_string (first_line (body_newPassword b)))
         ∧ is_upper c = true) ∧
   (∃ c, In c (String.list_ascii_of_string (first_line (body_newPassword b)))
         ∧ is_digit c = true)) ∧
  validatePasswordUpdate broken ≠ [] ∧
  has_char is_upper (body_newPassword broken) = true.
Proof.
  cbv zeta. split; [reflexivity|]. split.
  - exact (proj1 (accepted_password_update_is_strong
                    {| body_currentPassword := "old-Secret1";
                       body_newPassword := "new-Secret2" |}) eq_refl).
  - split; [discriminate | reflexivity].
Defined.

(** ** The title of a conversation opened by a first message *)

Lemma length_append_string a b :
  String.length (a +:+ b) = (String.length a + String.length b)%nat.
Proof.
  induction a as [|c a IH]; [reflexivity|].
  change (String c a +:+ b) with (String c (a +:+ b)).
  cbn [String.length]. rewrite IH. reflexivity.
Qed.

Lemma substring_length n s : (String.length (String.substring 0 n s) ≤ n)%nat.
Proof.
  revert s. induction n as [|n IH]; intros [|c s]; cbn; try lia.
  specialize (IH s). lia.
Qed.

Lemma rtrim_dots s : rtrim (s +:+ "...") = s +:+ "...".
Proof.
  induction s as [|c s IH]; [reflexivity|].
  change (String c s +:+ "...") with (String c (s +:+ "...")).
  cbn [rtrim]. rewrite IH.
  destruct s; reflexivity.
Qed.

Lemma trim_starts_unspaced m c u : trim m = String c u → is_space c = false.
Proof.
  unfold trim. destruct (ltrim m) as [|a t] eqn:Hl; [discriminate|].
  pose proof (ltrim_head _ _ _ Hl) as Ha.
  destruct (rtrim_head a t Ha) as [v Hv]. rewrite Hv.
  intros [= <- _]. exact Ha.
Qed.

Lemma first_title_is_trimmed m :
  trim m ≠ "" → trim (first_title (trim m)) = first_title (trim m).
Proof.
  intros Hne. unfold first_title.
  destruct (50 <? str_length (trim m))%Z; [|apply trim_idempotent].
  destruct (trim m) as [|c u] eqn:Hm; [congruence|].
  pose proof (trim_starts_unspaced _ _ _ Hm) as Hc.
  change (String.substring 0 50 (String c u))
    with (String c (String.substring 0 49 u)).
  change (String c (String.substring 0 49 u) +:+ "...")
    with (String c (String.substring 0 49 u +:+ "...")) at 1.
  unfold trim. cbn [ltrim]. rewrite Hc.
  apply (rtrim_dots (String c (String.substring 0 49 u))).
Qed.

Lemma first_title_length s :
  s ≠ "" → (1 ≤ str_length (first_title s) ≤ 53)%Z.
Proof.
  intros Hne. unfold first_title.
  destruct (50 <? str_length s)%Z eqn:Hlong.
  - unfold str_length. rewrite length_append_string.
    pose proof (substring_length 50 s) as Hsub.
    change (String.length "...") with 3%nat. lia.
  - apply Z.ltb_ge in Hlong. unfold str_length in *.
    destruct s; [congruence|]. cbn [String.length] in *. lia.
Qed.

(** X23.  When [handleSubmit] opens a conversation for a first message:
    if the trimmed text is not empty, the title it sends has at most 53
    characters, passes the title validator, and is stored as sent (the
    server's trim leaves it alone) in a new, empty conversation of the
    caller.  If the trimmed text is empty (files only), the title is empty
    too and POST [/conversations] answers 400 without touching the store. *)
Theorem first_message_title_is_stored_as_sent E D u w t
    message attachments conversationId title messageText :
  handleSubmit message attachments conversationId = create_then_send title messageText →
  pg_outcome E (queries w) = Some t →
  table w !! gen_random_uuid D (queries w) = None →
  messageText = trim message ∧
  (messageText ≠ "" →
     (str_length title ≤ 53)%Z ∧
     ∃ c w',
       post_conversation E D (create_request u title) w =
         ({| reply_status := 201;
             reply_payload :=
               body_payload (conversation_body "Conversation created successfully" c) |},
          w') ∧
       conv_title c = title ∧ conv_userId c = usr_id u ∧ conv_messages c = [] ∧
       table w' !! conv_id c =
         Some {| row_user_id := usr_id u; row_title := title; row_messages := [];
                 row_created_at := t; row_updated_at := t |}) ∧
  (messageText = "" →
     (0 < attachments)%nat ∧ title = "" ∧
     ∃ details,
       post_conversation E D (create_request u title) w =
         ({| reply_status := 400;
             reply_payload := body_payload (validation_body "Validation failed" details) |},
          w)).
Proof.
  intros Hsubmit Hq Hfresh.
  assert (Hshape : title = first_title (trim message) ∧ messageText = trim message
                   ∧ (trim message = "" → (0 < attachments)%nat)).
  { unfold handleSubmit in Hsubmit.
    destruct (String.eqb_spec (trim message) "") as [Hblank|Hfull].
    - destruct attachments as [|k]; [discriminate|]. cbn in Hsubmit.
      destruct conversationId as [id|];
        [destruct (String.eqb id ""); [|discriminate]|];
        injection Hsubmit as <- <-; repeat split; lia.
    - cbn in Hsubmit.
      destruct conversationId as [id|];
        [destruct (String.eqb id ""); [|discriminate]|];
        injection Hsubmit as <- <-; repeat split; congruence. }
  destruct Hshape as (-> & -> & Hfiles).
  split; [reflexivity|]. split.
  - intros Hfull.
    pose proof (first_title_length _ Hfull) as [Hmin Hmax].
    pose proof (first_title_is_trimmed _ Hfull) as Htrim.
    split; [exact Hmax|].
    unfold post_conversation, handleValidationErrors_reply, validateConversation.
    cbn [create_request req_body_title]. rewrite Htrim.
    assert (Hlen : isLength 1 200 (first_title (trim message)) = true).
    { unfold isLength. apply andb_true_iff. split; apply Z.leb_le; lia. }
    rewrite Hlen. unfold post_conversation_handler.
    cbn [sanitize_title create_request req_user req_body_title]. rewrite Htrim.
    rewrite (create_runs _ _ _ _ _ _ _ Hq Hfresh) by lia.
    eexists _, _. split; [reflexivity|].
    cbn. rewrite lookup_insert_eq. repeat split.
  - intros Hblank. split; [exact (Hfiles Hblank)|].
    rewrite Hblank. split; [reflexivity|].
    unfold post_conversation, handleValidationErrors_reply, validateConversation.
    cbn. eexists. reflexivity.
Qed.

Lemma first_message_title_is_stored_as_sent_witness :
  let E := Demo.env Demo.store_up None in
  let D := StoreDemo.next_key in
  let message := "  Please summarise the quarterly report and list the three largest risks  " in
  let title := "Please summarise the quarterly report and list the..." in
  let messageText := "Please summarise the quarterly report and list the three largest risks" in
  (handleSubmit message 0 None = create_then_send title messageText ∧
   pg_outcome E (queries Demo.world) = Some 1000%Z ∧
   table Demo.world !! gen_random_uuid D (queries Demo.world) = None) ∧
  messageText ≠ "" ∧
  (str_length title ≤ 53)%Z ∧
  ∃ c w',
    post_conversation E D (create_request Demo.alice title) Demo.world =
      ({| reply_status := 201;
          reply_payload :=
            body_payload (conversation_body "Conversation created successfully" c) |},
       w') ∧
    conv_title c = title.
Proof.
  cbv zeta. split; [repeat split|]. split; [discriminate|].
  destruct (first_message_title_is_stored_as_sent
              (Demo.env Demo.store_up None) StoreDemo.next_key Demo.alice Demo.world
              1000%Z
              "  Please summarise the quarterly report and list the three largest risks  "
              0 None
              "Please summarise the quarterly report and list the..."
              "Please summarise the quarterly report and list the three largest risks"
              eq_refl eq_refl eq_refl) as (_ & Hfull & _).
  destruct Hfull as (Hlen & c & w' & Hpost & Htitle & _); [discriminate|].
  split; [exact Hlen|]. exists c, w'. split; [exact Hpost | exact Htitle].
Defined.

(** ** The dashboard *)

Lemma foldl_total {A} (f : A → nat) (l : list A) (a : nat) :
  foldl (fun total x => total + f x)%nat a l = (a + sum_list (f <$> l))%nat.
Proof.
  revert a. induction l as [|x l IH]; intros a; cbn; [lia|].
  rewrite IH. lia.
Qed.

(** X24.  The dashboard of a user, when its reads succeed, is computed from
    the first page of five of the list route: [conversationCount] is the
    length of that page, hence the number of the user's conversations only
    up to five; [totalMessages] adds up the message counts of that page;
    the recent conversations are its first three.  The store is as before. *)
Theorem dashboard_counts_the_first_five E u n w t :
  pg_outcome E (queries w) = Some t →
  ∃ d w' page more w1,
    get_dashboard E u (Some n) w = ((200, Some d), w') ∧
    table w' = table w ∧
    get_conversations E u {| query_page := None; query_limit := Some 5%Z |} w =
      ({| reply_status := 200; reply_payload := page_payload page 1 5 more |}, w1) ∧
    conversationCount (dash_stats d) = length page ∧
    conversationCount (dash_stats d) = (5 `min` length (rows_of (usr_id u) (table w)))%nat ∧
    apiConfigCount (dash_stats d) = n ∧
    totalMessages (dash_stats d) = sum_list (sum_messageCount <$> page) ∧
    dash_recent d = take 3 page.
Proof.
  intros Hq.
  assert (Hfind := findByUserId_runs E (usr_id u) 5 0 w t Hq ltac:(lia) ltac:(lia)).
  unfold get_dashboard, get_conversations.
  cbn [query_page query_limit default from_option]. unfold id.
  change ((1 - 1) * 5)%Z with 0%Z. rewrite Hfind.
  eexists _, _, _, _, _. split; [reflexivity|]. split; [reflexivity|].
  split; [reflexivity|].
  cbn [dash_stats conversationCount apiConfigCount totalMessages dash_recent].
  change (Z.to_nat 0) with 0%nat. change (Z.to_nat 5) with 5%nat.
  rewrite drop_0.
  split; [rewrite !length_fmap; reflexivity|].
  split.
  { rewrite length_fmap, length_take.
    rewrite (Permutation_length (merge_sort_Permutation newer _)). reflexivity. }
  split; [reflexivity|]. split.
  - rewrite foldl_total, <- !list_fmap_compose. reflexivity.
  - rewrite fmap_take. reflexivity.
Qed.

Lemma dashboard_counts_the_first_five_witness :
  pg_outcome ListDemo.E (queries Demo.world) = Some 1000%Z ∧
  ∃ d w' page more w1,
    get_dashboard ListDemo.E Demo.alice (Some 2%nat) Demo.world = ((200, Some d), w') ∧
    table w' = table Demo.world ∧
    get_conversations ListDemo.E Demo.alice
        {| query_page := None; query_limit := Some 5%Z |} Demo.world =
      ({| reply_status := 200; reply_payload := page_payload page 1 5 more |}, w1) ∧
    conversationCount (dash_stats d) = length page ∧
    conversationCount (dash_stats d)
      = (5 `min` length (rows_of (usr_id Demo.alice) (table Demo.world)))%nat ∧
    apiConfigCount (dash_stats d) = 2%nat ∧
    totalMessages (dash_stats d) = sum_list (sum_messageCount <$> page) ∧
    dash_recent d = take 3 page.
Proof.
  split; [reflexivity|].
  exact (dashboard_counts_the_first_five ListDemo.E Demo.alice 2 Demo.world 1000%Z eq_refl).
Defined.

(** ** The registration form and the server's chain *)

(** X25.  Credentials that the registration form accepts have the password
    typed twice and pass the pattern check of the server's chain, which is
    the form's: the server does not answer them with the pattern error.
    The form sets no upper bound on the name: when the trimmed name has more
    than 50 characters the form accepts it all the same, and the server's
    chain answers with the name error. *)
Theorem accepted_form_and_the_server_chain isEmail c confirmPassword :
  validateForm c confirmPassword = true →
  reg_password c = confirmPassword ∧
  looks_like_email (reg_email c) = true ∧
  ({| ve_path := "password";
      ve_msg := "Password must contain at least one lowercase letter, one uppercase letter, and one number" |}
     ∉ validateUserRegistration isEmail c) ∧
  ((50 < str_length (trim (reg_name c)))%Z →
     {| ve_path := "name"; ve_msg := "Name must be between 2 and 50 characters" |}
       ∈ validateUserRegistration isEmail c).
Proof.
  unfold validateForm, form_errors. intros Hform.
  destruct (String.eqb (trim (reg_name c)) ""); [discriminate|].
  destruct (str_length (trim (reg_name c)) <? 2)%Z eqn:Hname; [discriminate|].
  destruct (String.eqb (reg_email c) ""); [discriminate|].
  destruct (looks_like_email (reg_email c)) eqn:Hlooks; [|discriminate].
  destruct (String.eqb (reg_password c) ""); [discriminate|].
  destruct (str_length (reg_password c) <? 8)%Z eqn:Hpw; [discriminate|].
  destruct (matches_password_pattern (reg_password c)) eqn:Hpat; [|discriminate].
  destruct (String.eqb confirmPassword ""); [discriminate|].
  destruct (String.eqb_spec (reg_password c) confirmPassword) as [Hsame|]; [|discriminate].
  split; [exact Hsame|]. split; [reflexivity|].
  unfold validateUserRegistration. rewrite Hpat. split.
  - rewrite !elem_of_app.
    destruct (isEmail (reg_email c)); destruct (isLength_min 8 (reg_password c));
      destruct (isLength 2 50 (trim (reg_name c)));
      intros [H | [H | [H | H]]];
      repeat match goal with
             | H : _ ∈ [] |- _ => apply elem_of_nil in H; destruct H
             | H : _ ∈ [_] |- _ => apply list_elem_of_singleton in H; discriminate H
             end.
  - intros Hlong. apply Z.leb_gt in Hlong. unfold isLength.
    rewrite Hlong, andb_false_r. rewrite !elem_of_app.
    right. right. right. apply list_elem_of_singleton. reflexivity.
Qed.

Lemma accepted_form_and_the_server_chain_witness :
  let c := {| reg_email := "alice@example.org"; reg_password := "new-Secret2";
              reg_name := copies 51 "a" |} in
  validateForm c "new-Secret2" = true ∧
  (50 < str_length (trim (reg_name c)))%Z ∧
  reg_password c = "new-Secret2" ∧
  {| ve_path := "name"; ve_msg := "Name must be between 2 and 50 characters" |}
    ∈ validateUserRegistration looks_like_email c.
Proof.
  cbv zeta.
  assert (Hlong : (50 < str_length (trim (copies 51 "a")))%Z) by (vm_compute; reflexivity).
  split; [reflexivity|]. split; [exact Hlong|].
  destruct (accepted_form_and_the_server_chain looks_like_email
              {| reg_email := "alice@example.org"; reg_password := "new-Secret2";
                 reg_name := copies 51 "a" |} "new-Secret2" eq_refl)
    as (Hsame & _ & _ & Hname).
  split; [exact Hsame | exact (Hname Hlong)].
Defined.

(** ** The answers of the routes, as the client reads them *)

(** X17.  A submission that the route answers with 200 is stored: the row
    holds the messages of the returned conversation, more than before.
    The body is [{ message, conversation }], without [success] and
    [data]: [sendMessage], given that body, takes its failure branch and
    throws; it records "Failed to send message", and the list and the open
    conversation of the client stay as they were. *)
Theorem stored_answer_is_read_as_a_failure E req w r resp w' state :
  valid_submission E req w r →
  post_message E req w = (resp, w') →
  status resp = 200%nat →
  ∃ c r',
    body resp = conversation_body "Message sent successfully" c ∧
    table w' !! req_params_id req = Some r' ∧
    row_messages r' = conv_messages c ∧
    (length (row_messages r) < length (conv_messages c))%nat ∧
    sendMessage_resolved (read_body (body resp))
      = (sendMessage_failure "Failed to send message", true) ∧
    let s' := dispatch_all state (fst (sendMessage_resolved (read_body (body resp)))) in
    conversations s' = conversations state ∧
    currentConversation s' = currentConversation state ∧
    error s' = Some "Failed to send message" ∧
    isTyping s' = false.
Proof.
  intros Hvalid Hpost Hstatus.
  rewrite (post_message_outcome _ _ _ _ Hvalid) in Hpost.
  unfold submission_outcome in Hpost.
  assert (Hsent : ∀ added t nq na ems,
            added ≠ [] →
            (sent (returned req r added t),
             world_after (persisted req r added t w) nq na ems w) = (resp, w') →
            ∃ c r',
              body resp = conversation_body "Message sent successfully" c ∧
              table w' !! req_params_id req = Some r' ∧
              row_messages r' = conv_messages c ∧
              (length (row_messages r) < length (conv_messages c))%nat ∧
              sendMessage_resolved (read_body (body resp))
                = (sendMessage_failure "Failed to send message", true) ∧
              let s' := dispatch_all state
                          (fst (sendMessage_resolved (read_body (body resp)))) in
              conversations s' = conversations state ∧
              currentConversation s' = currentConversation state ∧
              error s' = Some "Failed to send message" ∧
              isTyping s' = false).
  { intros added t nq na ems Hadded [= <- <-].
    exists (returned req r added t), (with_messages r (row_messages r ++ added) t).
    split; [reflexivity|]. split; [apply lookup_insert_eq|].
    split; [reflexivity|]. split.
    - cbn. rewrite length_app. destruct added; [congruence|]. cbn. lia.
    - split; [reflexivity|]. cbn. repeat split. }
  assert (Hfailed : ∀ w1, (failed_to_send, w1) ≠ (resp, w')).
  { intros w1 [= <- _]. discriminate. }
  destruct (pg_outcome E (queries w)); [|destruct (Hfailed _ Hpost)].
  destruct (pg_outcome E (1 + queries w)); [|destruct (Hfailed _ Hpost)].
  destruct (mockResponse E _ _).
  - destruct (pg_outcome E (2 + queries w)).
    + eapply Hsent; [|exact Hpost]. discriminate.
    + destruct (pg_outcome E (3 + queries w)); [|destruct (Hfailed _ Hpost)].
      eapply Hsent; [|exact Hpost]. discriminate.
  - destruct (pg_outcome E (2 + queries w)); [|destruct (Hfailed _ Hpost)].
    eapply Hsent; [|exact Hpost]. discriminate.
Qed.

Lemma stored_answer_is_read_as_a_failure_witness :
  (valid_submission ListDemo.E Demo.hello Demo.world Demo.row ∧
   post_message ListDemo.E Demo.hello Demo.world
     = (sent ListDemo.answered, ListDemo.after_answer) ∧
   status (sent ListDemo.answered) = 200%nat) ∧
  ∃ c r',
    body (sent ListDemo.answered) = conversation_body "Message sent successfully" c ∧
    table ListDemo.after_answer !! req_params_id Demo.hello = Some r' ∧
    row_messages r' = conv_messages c ∧
    (length (row_messages Demo.row) < length (conv_messages c))%nat ∧
    sendMessage_resolved (read_body (body (sent ListDemo.answered)))
      = (sendMessage_failure "Failed to send message", true) ∧
    let s' := dispatch_all ClientDemo.open_demo
                (fst (sendMessage_resolved (read_body (body (sent ListDemo.answered))))) in
    conversations s' = conversations ClientDemo.open_demo ∧
    currentConversation s' = currentConversation ClientDemo.open_demo ∧
    error s' = Some "Failed to send message" ∧
    isTyping s' = false.
Proof.
  assert (Hvalid : valid_submission ListDemo.E Demo.hello Demo.world Demo.row).
  { repeat split. }
  assert (Hpost : post_message ListDemo.E Demo.hello Demo.world
                  = (sent ListDemo.answered, ListDemo.after_answer)).
  { rewrite (post_message_outcome _ _ _ _ Hvalid). reflexivity. }
  split; [split; [exact Hvalid | split; [exact Hpost | reflexivity]]|].
  exact (stored_answer_is_read_as_a_failure ListDemo.E Demo.hello Demo.world Demo.row
           (sent ListDemo.answered) ListDemo.after_answer ClientDemo.open_demo
           Hvalid Hpost eq_refl).
Defined.

(** X26.  DELETE [/conversations/:id] by the owner, when its two statements
    run, removes the row and answers 200 with [{ message }].  That body has
    no [success] field: [deleteConversation], given it, dispatches no
    [REMOVE_CONVERSATION] but records "Failed to delete conversation" and
    throws, so the client still lists the conversation that the store no
    longer has. *)
Theorem deleted_conversation_stays_listed E req w r t0 t1 state :
  isUUID E (req_params_id req) = true →
  truthy (Some (usr_id (req_user req))) = true →
  table w !! req_params_id req = Some r →
  row_user_id r = usr_id (req_user req) →
  pg_outcome E (queries w) = Some t0 →
  pg_outcome E (1 + queries w) = Some t1 →
  ∃ reply w',
    delete_conversation E req w = (reply, w') ∧
    reply_status reply = 200%nat ∧
    table w' !! req_params_id req = None ∧
    deleteConversation_resolved (req_params_id req) (read_payload (reply_payload reply))
      = ([SET_ERROR "Failed to delete conversation"], true) ∧
    let s' := dispatch_all state
                (fst (deleteConversation_resolved (req_params_id req)
                        (read_payload (reply_payload reply)))) in
    conversations s' = conversations state ∧
    currentConversation s' = currentConversation state ∧
    error s' = Some "Failed to delete conversation".
Proof.
  intros Hid Hu Hr Ho Hq0 Hq1.
  unfold delete_conversation, handleValidationErrors_reply, validateUUIDParam.
  rewrite Hid. unfold delete_conversation_handler.
  rewrite (findById_owned _ _ _ _ _ _ Hq0 Hr (truthy_nonempty _ Hu) Ho).
  rewrite (delete_runs _ _ _ t1) by exact Hq1.
  eexists _, _. split; [reflexivity|]. split; [reflexivity|].
  split; [cbn; apply lookup_delete_eq|].
  split; [reflexivity|]. cbn. repeat split.
Qed.

Lemma deleted_conversation_stays_listed_witness :
  let E := ListDemo.E in
  let req := Demo.request Demo.alice "" in
  (isUUID E (req_params_id req) = true ∧
   truthy (Some (usr_id (req_user req))) = true ∧
   table Demo.world !! req_params_id req = Some Demo.row ∧
   row_user_id Demo.row = usr_id (req_user req) ∧
   pg_outcome E (queries Demo.world) = Some 1000%Z ∧
   pg_outcome E (1 + queries Demo.world) = Some 1001%Z) ∧
  ∃ reply w',
    delete_conversation E req Demo.world = (reply, w') ∧
    reply_status reply = 200%nat ∧
    table w' !! req_params_id req = None ∧
    deleteConversation_resolved (req_params_id req) (read_payload (reply_payload reply))
      = ([SET_ERROR "Failed to delete conversation"], true) ∧
    let s' := dispatch_all ClientDemo.open_demo
                (fst (deleteConversation_resolved (req_params_id req)
                        (read_payload (reply_payload reply)))) in
    conversations s' = conversations ClientDemo.open_demo ∧
    currentConversation s' = currentConversation ClientDemo.open_demo ∧
    error s' = Some "Failed to delete conversation".
Proof.
  cbv zeta. split; [repeat split|].
  exact (deleted_conversation_stays_listed ListDemo.E (Demo.request Demo.alice "")
           Demo.world Demo.row 1000%Z 1001%Z ClientDemo.open_demo
           eq_refl eq_refl eq_refl eq_refl eq_refl eq_refl).
Defined.

(** X27.  An answer of GET [/conversations] with status 200 carries the
    page as [{ conversations, pagination }].  That body has no [data]
    field: [loadConversations], given it, dispatches no [SET_CONVERSATIONS]
    and no error; the client's list, open conversation and error are as
    before, whatever the page holds. *)
Theorem listed_conversations_are_not_loaded E u q w reply w' state :
  get_conversations E u q w = (reply, w') →
  reply_status reply = 200%nat →
  (∃ summaries page limit more,
     reply_payload reply = page_payload summaries page limit more) ∧
  loadConversations_resolved (read_payload (reply_payload reply))
    = [SET_LOADING true; SET_LOADING false] ∧
  let s' := dispatch_all state
              (loadConversations_resolved (read_payload (reply_payload reply))) in
  conversations s' = conversations state ∧
  currentConversation s' = currentConversation state ∧
  error s' = error state ∧
  isLoading s' = false.
Proof.
  unfold get_conversations.
  destruct (findByUserId E (usr_id u) _ _ w) as [[cs|e] w1];
    intros [= <- <-] Hstatus; [|discriminate].
  split; [eauto|]. split; [reflexivity|]. cbn. repeat split.
Qed.

Lemma listed_conversations_are_not_loaded_witness :
  let q := {| query_page := None; query_limit := None |} in
  let reply := fst (get_conversations ListDemo.E Demo.alice q Demo.world) in
  let w' := snd (get_conversations ListDemo.E Demo.alice q Demo.world) in
  (get_conversations ListDemo.E Demo.alice q Demo.world = (reply, w') ∧
   reply_status reply = 200%nat) ∧
  (∃ summaries page limit more,
     reply_payload reply = page_payload summaries page limit more ∧
     length summaries = 1%nat) ∧
  loadConversations_resolved (read_payload (reply_payload reply))
    = [SET_LOADING true; SET_LOADING false].
Proof.
  cbv zeta. split; [split; reflexivity|].
  destruct (listed_conversations_are_not_loaded ListDemo.E Demo.alice
              {| query_page := None; query_limit := None |} Demo.world
              (fst (get_conversations ListDemo.E Demo.alice
                      {| query_page := None; query_limit := None |} Demo.world))
              (snd (get_conversations ListDemo.E Demo.alice
                      {| query_page := None; query_limit := None |} Demo.world))
              ClientDemo.open_demo eq_refl eq_refl) as (_ & Hload & _).
  split; [|exact Hload].
  eexists _, _, _, _. split; reflexivity.
Defined.

(** ** Page and limit outside their range *)


